(** * langsmith-fetch: the bulk-retrieval core (src/fetchers.ts) and the
      time-filter guard of the command line (src/cli.ts)

    A shallow embedding of the fetchers: the metadata extractor, the
    message-stream parser, the single-item fetchers, the query builder, the
    thread-id deduplicator and the bounded-concurrency bulk orchestrator.

    JavaScript values are modelled as follows.
    - A string is a [string]; its characters stand for code units below 256.
    - A number that the code computes with is a [jsnum]: an integer or NaN.
      Time values of [Date] are integers of milliseconds, so the arithmetic
      on them is exact.
    - An optional field ([x?: T], possibly [null] on the wire) is an [option].
    - An object used as a dictionary ([Record<string, unknown>]) is a
      [gmap string jsval].
    - The [Map] of thread ids keeps insertion order: an association list.
    - A rejected promise or a thrown exception is the [Throw] case of
      [result]. *)

From Stdlib Require Import ZArith QArith Ascii.
From stdpp Require Import base option list strings gmap relations pretty.

Open Scope Z_scope.
Close Scope Q_scope.

(** ** JavaScript primitives *)

Inductive jsnum :=
  | Num (z : Z)
  | NaN.

Inductive jsval :=
  | JNull
  | JBool (b : bool)
  | JNumber (n : jsnum)
  | JString (s : string).

#[global] Instance jsnum_eq_dec : EqDecision jsnum.
Proof. solve_decision. Defined.

#[global] Instance jsval_eq_dec : EqDecision jsval.
Proof. solve_decision. Defined.

(** [a - b] on numbers: NaN is absorbing. *)
Definition js_sub (a b : jsnum) : jsnum :=
  match a, b with
  | Num x, Num y => Num (x - y)
  | _, _ => NaN
  end.

Definition js_mul (a b : jsnum) : jsnum :=
  match a, b with
  | Num x, Num y => Num (x * y)
  | _, _ => NaN
  end.

(** [v > 0] for a number: false on NaN. *)
Definition js_gt0 (n : jsnum) : bool :=
  match n with
  | Num z => bool_decide (0 < z)
  | NaN => false
  end.

(** Truthiness of a string (in [if (s)], [a && b]): non-empty. *)
Definition truthy_str (s : string) : bool :=
  match s with
  | EmptyString => false
  | String _ _ => true
  end.

(** Truthiness of an optional string field. *)
Definition truthy_ostr (o : option string) : bool :=
  match o with
  | Some s => truthy_str s
  | None => false
  end.

Definition truthy (v : jsval) : bool :=
  match v with
  | JNull => false
  | JBool b => b
  | JNumber (Num z) => negb (bool_decide (z = 0))
  | JNumber NaN => false
  | JString s => truthy_str s
  end.

(** [a ?? b] on a dictionary lookup: [b] when [a] is absent or null. *)
Definition nullish (a b : option jsval) : option jsval :=
  match a with
  | None | Some JNull => b
  | Some v => Some v
  end.

(** ** Strings: [split('\n\n')] and [trim()] *)

Definition LF : ascii := "010"%char.

Definition is_LF (c : ascii) : bool := bool_decide (c = LF).

(** White space and line terminators removed by [String.prototype.trim],
    among the code units below 256: TAB, LF, VT, FF, CR, SP, NBSP. *)
Definition is_js_space (c : ascii) : bool :=
  let n := nat_of_ascii c in
  (bool_decide (9 <= n)%nat && bool_decide (n <= 13)%nat)
  || bool_decide (n = 32%nat) || bool_decide (n = 160%nat).

(** [s.split('\n\n')]: the separator is matched leftmost first, matches do
    not overlap, and the result always has at least one segment. *)
Fixpoint split_nn (s : string) : list string :=
  match s with
  | EmptyString => [EmptyString]
  | String c s' =>
      match is_LF c, s' with
      | true, String c' s'' =>
          if is_LF c' then EmptyString :: split_nn s''
          else
            match split_nn s' with
            | h :: t => String c h :: t
            | [] => [String c EmptyString]
            end
      | _, _ =>
          match split_nn s' with
          | h :: t => String c h :: t
          | [] => [String c EmptyString]
          end
      end
  end.

Fixpoint trimStart (s : string) : string :=
  match s with
  | EmptyString => EmptyString
  | String c s' => if is_js_space c then trimStart s' else s
  end.

(** Drops the trailing white space: a character is kept when something
    that is kept follows it, or when it is not white space. *)
Fixpoint trimEnd (s : string) : string :=
  match s with
  | EmptyString => EmptyString
  | String c s' =>
      match trimEnd s' with
      | EmptyString => if is_js_space c then EmptyString else String c EmptyString
      | t => String c t
      end
  end.

Definition trim (s : string) : string := trimEnd (trimStart s).

(** ** The built-ins the fetchers call *)

(** [JSON.parse] and [Date] are built-ins of the JavaScript engine; the
    fetchers are modelled over any implementation of them. [Message] is the
    decoded form of one chat message, [Feedback] of one feedback record. *)
Class JsRuntime := {
  Message : Type;
  Feedback : Type;
  (** [JSON.parse(s)]; [None] when it throws a SyntaxError. *)
  JSON_parse : string -> option Message;
  (** [new Date(s).getTime()]: the time value in milliseconds, NaN for an
      Invalid Date. The constructor itself never throws. *)
  Date_parse : string -> jsnum;
  (** [new Date(t).toISOString()]; [None] when it throws a RangeError (on
      an invalid time value). *)
  Date_toISOString : jsnum -> option string;
  (** [parseInt(s, 10)] *)
  parseInt10 : string -> jsnum;
}.

(** ** Message-stream parser (fetchThread, lines 164-176) *)

Section MessageStream.
Context `{JsRuntime}.

(** One turn of the [for] loop over the segments: [messages] is the array
    built so far. *)
Definition parse_segment (messages : list Message) (line : string) : list Message :=
  let trimmed := trim line in
  if truthy_str trimmed then
    match JSON_parse trimmed with
    | Some m => messages ++ [m]
    | None => messages
    end
  else messages.

Definition parseMessages (messagesText : string) : list Message :=
  fold_left parse_segment (split_nn messagesText) [].

End MessageStream.

(** ** Data model (src/types.ts) *)

Section DataModel.
Context `{JsRuntime}.

Record RunExtra := {
  extra_metadata : option (gmap string jsval);
}.

Record RunOutputs := {
  outputs_messages : option (list Message);
}.

Record RawRun := {
  run_id : string;
  run_status : option string;
  run_start_time : option string;
  run_end_time : option string;
  run_extra : option RunExtra;
  run_outputs : option RunOutputs;
  run_messages : option (list Message);
  run_prompt_tokens : option Z;
  run_completion_tokens : option Z;
  run_total_tokens : option Z;
  run_prompt_cost : option Q;
  run_completion_cost : option Q;
  run_total_cost : option Q;
  run_first_token_time : option string;
  run_feedback_stats : option (gmap string jsval);
}.

Record TokenUsage := {
  prompt_tokens : option Z;
  completion_tokens : option Z;
  total_tokens : option Z;
}.

Record Costs := {
  prompt_cost : option Q;
  completion_cost : option Q;
  total_cost : option Q;
}.

(** [duration_ms : number | null]: [None] is null. *)
Record RunMetadata := {
  status : option string;
  start_time : option string;
  end_time : option string;
  duration_ms : option jsnum;
  custom_metadata : gmap string jsval;
  token_usage : TokenUsage;
  costs : Costs;
  first_token_time : option string;
  feedback_stats : gmap string jsval;
}.

(** [metadata?] and [feedback?]: [None] is an absent field. *)
Record TraceData := {
  trace_id : string;
  trace_messages : list Message;
  trace_metadata : option RunMetadata;
  trace_feedback : option (list Feedback);
}.

(** The thread id is the key taken from the [Map] of thread ids, which
    holds whatever value the run's metadata carried. *)
Record ThreadData := {
  thread_id : jsval;
  thread_messages : list Message;
}.

Record RunsQueryResponse := {
  runs : option (list RawRun);
}.

Record ThreadPreviewResponse := {
  all_messages : string;
}.

(** The two shapes of the feedback payload, and any other JSON object. *)
Inductive FeedbackPayload :=
  | FeedbackArray (l : list Feedback)
  | FeedbackWrapped (l : list Feedback)
  | FeedbackOther.

(** The body of [POST /runs/query]. *)
Record QueryBody := {
  body_is_root : bool;
  body_filter : option string;
  body_limit : option jsnum;
  body_session : option (list string);
  body_start_time : option string;
}.

End DataModel.

(** ** Metadata extractor (lines 55-97) *)

Section Metadata.
Context `{JsRuntime}.

(** [run.extra || {}] then [extra.metadata || {}]: an object is always
    truthy, so [||] only replaces an absent one. *)
Definition customMetadataOf (run : RawRun) : gmap string jsval :=
  match run_extra run with
  | Some extra => default ∅ (extra_metadata extra)
  | None => ∅
  end.

(** Lines 59-68. [new Date(s)] does not throw on a string it cannot parse:
    it gives an Invalid Date whose [getTime()] is NaN, so the [catch] is
    never entered. *)
Definition durationOf (run : RawRun) : option jsnum :=
  if truthy_ostr (run_start_time run) && truthy_ostr (run_end_time run) then
    match run_start_time run, run_end_time run with
    | Some s, Some e =>
        let start := Date_parse s in
        let end_ := Date_parse e in
        Some (js_sub end_ start)
    | _, _ => None
    end
  else None.

Definition extractRunMetadata (run : RawRun) : RunMetadata :=
  {| status := run_status run;
     start_time := run_start_time run;
     end_time := run_end_time run;
     duration_ms := durationOf run;
     custom_metadata := customMetadataOf run;
     token_usage :=
       {| prompt_tokens := run_prompt_tokens run;
          completion_tokens := run_completion_tokens run;
          total_tokens := run_total_tokens run |};
     costs :=
       {| prompt_cost := run_prompt_cost run;
          completion_cost := run_completion_cost run;
          total_cost := run_total_cost run |};
     first_token_time := run_first_token_time run;
     feedback_stats := default ∅ (run_feedback_stats run) |}.

(** [typeof v === 'number' && v > 0] *)
Definition positive_number (v : jsval) : bool :=
  match v with
  | JNumber n => js_gt0 n
  | _ => false
  end.

(** [Object.values(stats).some(...)]; [stats] is never absent on a
    [RunMetadata], so the [!stats] guard does not fire. *)
Definition hasFeedback (metadata : RunMetadata) : bool :=
  existsb positive_number (map snd (map_to_list (feedback_stats metadata))).

End Metadata.

(** ** Effects: thrown errors, console output, network requests *)

Inductive exn :=
  | ConfigError
  | ApiError (statusCode : Z) (responseBody : string)
  | NetworkError
  | SyntaxError
  | RangeError
  | TypeError.

(** The settled state of a promise, or the completion of a call. *)
Inductive result (A : Type) :=
  | Return (a : A)
  | Throw (e : exn).
Arguments Return {A} a.
Arguments Throw {A} e.

Inductive request :=
  | GetRun (traceId : string)
  | PostRunsQuery (body : QueryBody)
  | GetThread (threadId : jsval) (projectUuid : string)
  | GetFeedback (runId : string).

Inductive warning :=
  | FeedbackFailed (runId : string) (statusCode : Z)
  | TraceFailed (runId : string) (e : exn)
  | ThreadFailed (threadId : jsval) (e : exn)
  | MutuallyExclusive.

(** What a call does that its caller can observe besides its result:
    a request handed to [fetch], a line on [console.error], a call of
    the progress callback. *)
Inductive event :=
  | Fetch (r : request)
  | ConsoleError (w : warning)
  | Progress (completed total : nat).

(** A computation: the events it performed, oldest first, and how it
    completed. *)
Definition io (A : Type) : Type := list event * result A.

Definition io_ret {A} (a : A) : io A := ([], Return a).
Definition io_throw {A} (e : exn) : io A := ([], Throw e).
Definition io_emit (ev : event) : io unit := ([ev], Return tt).

Definition io_bind {A B} (m : io A) (f : A -> io B) : io B :=
  match m with
  | (evs, Return a) => let '(evs', r) := f a in (evs ++ evs', r)
  | (evs, Throw e) => (evs, Throw e)
  end.

#[global] Instance io_mret : MRet io := @io_ret.
#[global] Instance io_mbind : MBind io := fun A B f m => io_bind m f.

Definition events {A} (m : io A) : list event := fst m.
Definition outcome {A} (m : io A) : result A := snd m.

(** What [fetch] and the decoding of its response do for one request. *)
Inductive http (T : Type) :=
  | FetchRejected
  | NotOk (statusCode : Z) (text : string)
  | JsonRejected
  | Ok200 (payload : T).
Arguments FetchRejected {T}.
Arguments NotOk {T} statusCode text.
Arguments JsonRejected {T}.
Arguments Ok200 {T} payload.

(** Credentials as src/config.ts finds them. *)
Record Config := {
  env_LANGSMITH_API_KEY : option string;
  config_api_key : option string;
}.

Definition getApiKey (cfg : Config) : result string :=
  match env_LANGSMITH_API_KEY cfg with
  | Some k => if truthy_str k then Return k else
      match config_api_key cfg with
      | Some k' => if truthy_str k' then Return k' else Throw ConfigError
      | None => Throw ConfigError
      end
  | None =>
      match config_api_key cfg with
      | Some k' => if truthy_str k' then Return k' else Throw ConfigError
      | None => Throw ConfigError
      end
  end.

Section Fetchers.
Context `{JsRuntime}.

(** The remote service: its answer to each request. *)
Record Remote := {
  remote_run : string -> http RawRun;
  remote_query : QueryBody -> http RunsQueryResponse;
  remote_thread : jsval -> string -> http ThreadPreviewResponse;
  remote_feedback : string -> http FeedbackPayload;
}.

(** ** Transport (lines 21-53) *)

Definition apiRequest {T} (cfg : Config) (req : request) (answer : http T) : io T :=
  match getApiKey cfg with
  | Throw e => io_throw e
  | Return _ =>
      io_emit (Fetch req);;
      match answer with
      | FetchRejected => io_throw NetworkError
      | NotOk st text => io_throw (ApiError st text)
      | JsonRejected => io_throw SyntaxError
      | Ok200 payload => io_ret payload
      end
  end.

(** ** Feedback lookup (lines 99-120) *)

Definition fetchFeedback (cfg : Config) (net : Remote) (runId : string) : io (list Feedback) :=
  match getApiKey cfg with
  | Throw e => io_throw e
  | Return _ =>
      io_emit (Fetch (GetFeedback runId));;
      match remote_feedback net runId with
      | FetchRejected => io_throw NetworkError
      | NotOk st _ =>
          io_emit (ConsoleError (FeedbackFailed runId st));;
          io_ret []
      | JsonRejected => io_throw SyntaxError
      | Ok200 (FeedbackArray l) => io_ret l
      | Ok200 (FeedbackWrapped l) => io_ret l
      | Ok200 FeedbackOther => io_ret []
      end
  end.

(** ** Single-item fetchers (lines 122-182) *)

Record TraceOptions := {
  opt_includeMetadata : option bool;
  opt_includeFeedback : option bool;
}.

(** [run.messages || run.outputs?.messages || []] *)
Definition messagesOf (run : RawRun) : list Message :=
  match run_messages run with
  | Some ms => ms
  | None =>
      match run_outputs run with
      | Some o => default [] (outputs_messages o)
      | None => []
      end
  end.

Definition fetchTrace (cfg : Config) (net : Remote) (traceId : string)
    (options : option TraceOptions) : io TraceData :=
  let includeMetadata := default false (options ≫= opt_includeMetadata) in
  let includeFeedback := default false (options ≫= opt_includeFeedback) in
  run ← apiRequest cfg (GetRun traceId) (remote_run net traceId);
  let messages := messagesOf run in
  if includeMetadata || includeFeedback then
    let metadata := extractRunMetadata run in
    if includeFeedback && hasFeedback metadata then
      fb ← fetchFeedback cfg net traceId;
      io_ret {| trace_id := traceId; trace_messages := messages;
                trace_metadata := Some metadata; trace_feedback := Some fb |}
    else
      io_ret {| trace_id := traceId; trace_messages := messages;
                trace_metadata := Some metadata; trace_feedback := Some [] |}
  else
    io_ret {| trace_id := traceId; trace_messages := messages;
              trace_metadata := None; trace_feedback := None |}.

Definition fetchThread (cfg : Config) (net : Remote) (threadId : jsval)
    (projectUuid : string) : io ThreadData :=
  data ← apiRequest cfg (GetThread threadId projectUuid)
            (remote_thread net threadId projectUuid);
  io_ret {| thread_id := threadId;
            thread_messages := parseMessages (all_messages data) |}.

End Fetchers.

(** ** Query builder (lines 209-225 and 288-299) *)

(** [since.replace('Z', '+00:00')]: the first occurrence only. *)
Fixpoint replace_Z (s : string) : string :=
  match s with
  | EmptyString => EmptyString
  | String c s' =>
      if bool_decide (c = "Z"%char) then "+00:00" +:+ s'
      else String c (replace_Z s')
  end.

Section QueryBuilder.
Context `{JsRuntime}.

(** The value of [body.start_time], [None] when it is not set. [now] is
    [Date.now()]. The relative window is looked at first, and [since] only
    in its [else] branch. *)
Definition startTimeFilter (now : Z) (lastNMinutes : option jsnum)
    (since : option string) : result (option string) :=
  match lastNMinutes with
  | Some n =>
      let startTime := js_sub (Num now) (js_mul (js_mul n (Num 60)) (Num 1000)) in
      match Date_toISOString startTime with
      | Some iso => Return (Some iso)
      | None => Throw RangeError
      end
  | None =>
      match since with
      | Some s =>
          if truthy_str s then
            let cleanSince := replace_Z s in
            match Date_toISOString (Date_parse cleanSince) with
            | Some iso => Return (Some iso)
            | None => Throw RangeError
            end
          else Return None
      | None => Return None
      end
  end.

Definition tracesFilter : string :=
  "and(eq(is_root, true), neq(status, " +:+ String "034" ("pending" +:+ String "034" "))").

End QueryBuilder.

(** ** Thread-id deduplicator (lines 310-318) *)

Section Deduplicator.
Context `{JsRuntime}.

(** [meta.thread_id ?? meta.session_id], [None] when undefined. *)
Definition threadIdOf (run : RawRun) : option jsval :=
  let meta := customMetadataOf run in
  nullish (meta !! "thread_id") (meta !! "session_id").

(** [threadIds.has(k)] on the insertion-ordered [Map]. *)
Definition map_has (k : jsval) (m : list (jsval * option string)) : bool :=
  existsb (fun kv => bool_decide (kv.1 = k)) m.

(** [size >= limit]: false when [limit] is NaN. *)
Definition size_ge (size : nat) (limit : jsnum) : bool :=
  match limit with
  | Num z => bool_decide (z <= Z.of_nat size)
  | NaN => false
  end.

(** The [for] loop over [runs], started with the map [threadIds]; the
    [break] ends the recursion. *)
Fixpoint scanThreadIds (limit : jsnum) (runs : list RawRun)
    (threadIds : list (jsval * option string)) : list (jsval * option string) :=
  match runs with
  | [] => threadIds
  | run :: rest =>
      match threadIdOf run with
      | Some threadId =>
          if truthy threadId && negb (map_has threadId threadIds) then
            let threadIds' := threadIds ++ [(threadId, run_start_time run)] in
            if size_ge (length threadIds') limit then threadIds'
            else scanThreadIds limit rest threadIds'
          else scanThreadIds limit rest threadIds
      | None => scanThreadIds limit rest threadIds
      end
  end.

(** [Array.from(threadIds.keys())] after the loop. *)
Definition selectThreadIds (limit : jsnum) (runs : list RawRun) : list jsval :=
  map fst (scanThreadIds limit runs []).

End Deduplicator.

(** ** The concurrency limiter ([pLimit], imported on line 1) *)

(** Modelled from the spec: the state of the limiter that
    [pLimit(maxConcurrent)] returns. The p-limit package is imported by
    src/fetchers.ts and its source is not among the repository's files; the
    spec (4.7, 5) asks for a bound of at most N calls in flight, with the
    other calls queued. Calls are named by their position in the item
    list: [waiting] are the queued ones, oldest first, [active] the ones in
    flight. *)
Record limiter := {
  concurrency : nat;
  waiting : list nat;
  active : list nat;
}.

(** Modelled from the spec: [pLimit(n)] for a bound [n >= 1]; anything else
    is refused with a TypeError. *)
Definition pLimit (maxConcurrent : jsnum) : result limiter :=
  match maxConcurrent with
  | Num z =>
      if bool_decide (1 <= z)
      then Return {| concurrency := Z.to_nat z; waiting := []; active := [] |}
      else Throw TypeError
  | NaN => Throw TypeError
  end.

(** Modelled from the spec: handing call [i] to the limiter queues it. *)
Definition lim_submit (l : limiter) (i : nat) : limiter :=
  {| concurrency := concurrency l; waiting := waiting l ++ [i]; active := active l |}.

(** Modelled from the spec: the oldest queued call is started, which is
    possible only while fewer than [concurrency] calls are in flight. *)
Definition lim_start (l : limiter) : option limiter :=
  match waiting l with
  | i :: q =>
      if bool_decide (length (active l) < concurrency l)%nat
      then Some {| concurrency := concurrency l; waiting := q; active := active l ++ [i] |}
      else None
  | [] => None
  end.

(** Modelled from the spec: call [i], in flight, settles and leaves. *)
Definition lim_leave (i : nat) (l : limiter) : option limiter :=
  if bool_decide (i ∈ active l)
  then Some {| concurrency := concurrency l; waiting := waiting l;
               active := filter (λ j, j ≠ i) (active l) |}
  else None.

(** ** Bulk orchestrator (lines 235-264 and 322-343) *)

(** What the event loop does next: start the oldest queued call, or
    deliver the settlement of the call at position [i]. *)
Inductive action :=
  | Start
  | Settle (i : nat).

Section Bulk.
Context {Item Res : Type}.

(** [task i item]: the single-item fetch of the [try] block for the item
    at position [i]. *)
Variable task : nat -> Item -> io Res.
(** The warning of the [catch] block. *)
Variable failed : Item -> exn -> warning.
(** Whether [onProgress] was supplied. *)
Variable onProgress : bool.
Variable items : list Item.

(** The batch while it runs. [promises] is the array given to
    [Promise.all]: [None] for a promise still pending, [Some None] for one
    resolved with [null], [Some (Some v)] for one resolved with [v]. *)
Record bulk := {
  lim : limiter;
  completed : nat;
  console : list event;
  promises : list (option (option Res));
}.

(** After [items.map((item) => concurrencyLimit(async () => ...))]. *)
Definition bulk_init (l : limiter) : bulk :=
  {| lim := foldl lim_submit l (seq 0 (length items));
     completed := 0;
     console := [];
     promises := replicate (length items) None |}.

(** [onProgress?.(completed, total)] *)
Definition progress (c : nat) : list event :=
  if onProgress then [Progress c (length items)] else [].

(** The body of the wrapped function from the point where the awaited
    fetch settles: both branches count the item and report progress. *)
Definition settle (i : nat) (item : Item) (l' : limiter) (s : bulk) : bulk :=
  let completed' := S (completed s) in
  match task i item with
  | (evs, Return v) =>
      {| lim := l';
         completed := completed';
         console := console s ++ evs ++ progress completed';
         promises := <[i := Some (Some v)]> (promises s) |}
  | (evs, Throw e) =>
      {| lim := l';
         completed := completed';
         console := console s ++ evs ++ ConsoleError (failed item e) :: progress completed';
         promises := <[i := Some None]> (promises s) |}
  end.

Definition bulk_step (a : action) (s : bulk) : option bulk :=
  match a with
  | Start =>
      l' ← lim_start (lim s);
      Some {| lim := l'; completed := completed s; console := console s;
              promises := promises s |}
  | Settle i =>
      l' ← lim_leave i (lim s);
      item ← items !! i;
      Some (settle i item l' s)
  end.

(** [Promise.all] resolves when no call is queued or in flight. *)
Definition bulk_final (s : bulk) : bool :=
  match waiting (lim s), active (lim s) with
  | [], [] => true
  | _, _ => false
  end.

(** The action taken when the schedule does not say: start a queued call
    if the limiter allows it, else settle the oldest call in flight. *)
Definition next_action (s : bulk) : option action :=
  match lim_start (lim s) with
  | Some _ => Some Start
  | None =>
      match active (lim s) with
      | i :: _ => Some (Settle i)
      | [] => None
      end
  end.

Fixpoint drain (fuel : nat) (s : bulk) : bulk :=
  match fuel with
  | O => s
  | S fuel' =>
      match next_action s with
      | Some a =>
          match bulk_step a s with
          | Some s' => drain fuel' s'
          | None => s
          end
      | None => s
      end
  end.

(** Steps left: every queued call is started and settled, every call in
    flight is settled. *)
Definition steps_left (s : bulk) : nat :=
  (2 * length (waiting (lim s)) + length (active (lim s)))%nat.

(** The batch under the interleaving [sched]: an action of [sched] that is
    not enabled is passed over, and when [sched] ends early the batch is
    run to its end. *)
Definition bulk_run (sched : list action) (l : limiter) : bulk :=
  let s := foldl (λ s a, default s (bulk_step a s)) (bulk_init l) sched in
  drain (steps_left s) s.

(** [results.filter((r) => r !== null)] *)
Definition collect (s : bulk) : list Res :=
  omap (λ p, p ≫= id) (promises s).

(** The part of the function from [pLimit(maxConcurrent)] on. *)
Definition bulk_fetch (maxConcurrent : jsnum) (sched : list action) : io (list Res) :=
  match pLimit maxConcurrent with
  | Throw e => io_throw e
  | Return l =>
      let s := bulk_run sched l in
      (console s, Return (collect s))
  end.

End Bulk.

(** ** Bulk fetchers (lines 184-344) *)

Section BulkFetchers.
Context `{JsRuntime}.

(** What a call depends on besides its arguments: the credentials, the
    clock, the remote service as the query sees it ([index]) and as the
    fetch of the item at each position sees it ([item_net]). *)
Record World := {
  cfg : Config;
  now : Z;
  index : Remote;
  item_net : nat -> Remote;
}.

(** [onProgress] is modelled by whether it was supplied; each call of it
    is a [Progress] event. *)
Record FetchTracesOptions := {
  ft_limit : option jsnum;
  ft_projectUuid : option string;
  ft_lastNMinutes : option jsnum;
  ft_since : option string;
  ft_maxConcurrent : option jsnum;
  ft_includeMetadata : option bool;
  ft_includeFeedback : option bool;
  ft_onProgress : bool;
}.

(** Lines 241-249: the fetch of one run and the merge of the metadata
    of the query response. *)
Definition traceTask (w : World) (includeMetadata includeFeedback : bool)
    (i : nat) (run : RawRun) : io TraceData :=
  trace ← fetchTrace (cfg w) (item_net w i) (run_id run)
             (Some {| opt_includeMetadata := Some includeMetadata;
                      opt_includeFeedback := Some includeFeedback |});
  if includeMetadata && negb (bool_decide (is_Some (trace_metadata trace))) then
    mret {| trace_id := trace_id trace;
            trace_messages := trace_messages trace;
            trace_metadata := Some (extractRunMetadata run);
            trace_feedback := trace_feedback trace |}
  else mret trace.

Definition traceFailed (run : RawRun) (e : exn) : warning :=
  TraceFailed (run_id run) e.

Definition tracesBody (w : World) (opts : FetchTracesOptions) : result QueryBody :=
  let limit := default (Num 1) (ft_limit opts) in
  match startTimeFilter (now w) (ft_lastNMinutes opts) (ft_since opts) with
  | Throw e => Throw e
  | Return start =>
      Return {| body_is_root := true;
                body_filter := Some tracesFilter;
                body_limit := Some limit;
                body_session :=
                  match ft_projectUuid opts with
                  | Some p => if truthy_str p then Some [p] else None
                  | None => None
                  end;
                body_start_time := start |}
  end.

Definition fetchTraces (w : World) (opts : FetchTracesOptions)
    (sched : list action) : io (list TraceData) :=
  let maxConcurrent := default (Num 5) (ft_maxConcurrent opts) in
  let includeMetadata := default false (ft_includeMetadata opts) in
  let includeFeedback := default false (ft_includeFeedback opts) in
  match tracesBody w opts with
  | Throw e => io_throw e
  | Return body =>
      data ← apiRequest (cfg w) (PostRunsQuery body) (remote_query (index w) body);
      let runs := default [] (runs data) in
      if bool_decide (length runs = 0%nat) then mret []
      else
        bulk_fetch (traceTask w includeMetadata includeFeedback) traceFailed
          (ft_onProgress opts) runs maxConcurrent sched
  end.

Record FetchThreadsOptions := {
  fth_projectUuid : string;
  fth_limit : option jsnum;
  fth_lastNMinutes : option jsnum;
  fth_since : option string;
  fth_maxConcurrent : option jsnum;
  fth_onProgress : bool;
}.

Definition threadTask (w : World) (projectUuid : string) (i : nat)
    (threadId : jsval) : io ThreadData :=
  fetchThread (cfg w) (item_net w i) threadId projectUuid.

Definition threadsBody (w : World) (opts : FetchThreadsOptions) : result QueryBody :=
  match startTimeFilter (now w) (fth_lastNMinutes opts) (fth_since opts) with
  | Throw e => Throw e
  | Return start =>
      Return {| body_is_root := true;
                body_filter := None;
                body_limit := None;
                body_session := Some [fth_projectUuid opts];
                body_start_time := start |}
  end.

Definition fetchThreads (w : World) (opts : FetchThreadsOptions)
    (sched : list action) : io (list ThreadData) :=
  let limit := default (Num 10) (fth_limit opts) in
  let maxConcurrent := default (Num 5) (fth_maxConcurrent opts) in
  match threadsBody w opts with
  | Throw e => io_throw e
  | Return body =>
      data ← apiRequest (cfg w) (PostRunsQuery body) (remote_query (index w) body);
      let runs := default [] (runs data) in
      let threadIds := selectThreadIds limit runs in
      if bool_decide (length threadIds = 0%nat) then mret []
      else
        bulk_fetch (threadTask w (fth_projectUuid opts)) ThreadFailed
          (fth_onProgress opts) threadIds maxConcurrent sched
  end.

(** ** The time-filter guard of the command line (src/cli.ts, lines
    224-233 and 434-443) *)

Record CliTimeOptions := {
  cli_lastNMinutes : option string;
  cli_since : option string;
}.

(** How a command ends: [process.exit(code)], or the end of its action. *)
Inductive cli (A : Type) :=
  | Exit (code : Z)
  | Finished (a : A).

(** [opts.lastNMinutes ? parseInt(opts.lastNMinutes, 10) : undefined] *)
Definition cliLastNMinutes (opts : CliTimeOptions) : option jsnum :=
  match cli_lastNMinutes opts with
  | Some s => if truthy_str s then Some (parseInt10 s) else None
  | None => None
  end.

(** The start of the action of the [traces] and [threads] commands; [rest]
    is what the action does after the guard with the two filters (resolve
    the project, call the bulk fetcher, write the output). *)
Definition timeFilterGuard {A} (opts : CliTimeOptions)
    (rest : option jsnum -> option string -> io A) : io (cli A) :=
  let lastNMinutes := cliLastNMinutes opts in
  if bool_decide (is_Some lastNMinutes) && truthy_ostr (cli_since opts) then
    io_emit (ConsoleError MutuallyExclusive);;
    mret (Exit A 1)
  else
    a ← rest lastNMinutes (cli_since opts);
    mret (Finished A a).

End BulkFetchers.

(** ** A runtime and sample data to evaluate the model on *)

Definition digit (c : ascii) : option Z :=
  let n := Z.of_nat (nat_of_ascii c) in
  if bool_decide (48 <= n <= 57) then Some (n - 48) else None.

Definition digits2 (a b : ascii) : option Z :=
  x ← digit a; y ← digit b; Some (10 * x + y).

Definition digits4 (a b c d : ascii) : option Z :=
  x ← digits2 a b; y ← digits2 c d; Some (100 * x + y).

(** Days from 1970-01-01 to a date of the proleptic Gregorian calendar. *)
Definition days_from_civil (y m d : Z) : Z :=
  let y' := if bool_decide (m <= 2) then y - 1 else y in
  let era := y' `div` 400 in
  let yoe := y' - era * 400 in
  let mp := if bool_decide (2 < m) then m - 3 else m + 9 in
  let doy := (153 * mp + 2) `div` 5 + d - 1 in
  let doe := yoe * 365 + yoe `div` 4 - yoe `div` 100 + doy in
  era * 146097 + doe - 719468.

(** The time value of a timestamp written [YYYY-MM-DDTHH:MM:SSZ]; any
    other text is taken as an Invalid Date. *)
Definition sample_Date_parse (s : string) : jsnum :=
  match String.list_ascii_of_string s with
  | [y1; y2; y3; y4; p1; m1; m2; p2; d1; d2; t; h1; h2; c1; n1; n2; c2; s1; s2; z] =>
      if bool_decide (p1 = "-"%char) && bool_decide (p2 = "-"%char)
         && bool_decide (t = "T"%char) && bool_decide (c1 = ":"%char)
         && bool_decide (c2 = ":"%char) && bool_decide (z = "Z"%char)
      then
        match digits4 y1 y2 y3 y4, digits2 m1 m2, digits2 d1 d2,
              digits2 h1 h2, digits2 n1 n2, digits2 s1 s2 with
        | Some y, Some m, Some d, Some hh, Some mm, Some ss =>
            if bool_decide (1 <= m <= 12) && bool_decide (1 <= d <= 31)
               && bool_decide (hh <= 23) && bool_decide (mm <= 59)
               && bool_decide (ss <= 59)
            then Num (((days_from_civil y m d * 24 + hh) * 60 + mm) * 60000 + ss * 1000)
            else NaN
        | _, _, _, _, _, _ => NaN
        end
      else NaN
  | _ => NaN
  end.

Definition starts_with_brace (s : string) : bool :=
  match s with
  | String c _ => bool_decide (c = "{"%char)
  | EmptyString => false
  end.

(** A runtime for the examples: messages and feedback records are kept as
    their text, a text is taken to decode when it starts with a brace, a
    time value is printed as its number of milliseconds. *)
Definition sampleRuntime : JsRuntime :=
  {| Message := string;
     Feedback := string;
     JSON_parse := λ s, if starts_with_brace s then Some s else None;
     Date_parse := sample_Date_parse;
     Date_toISOString := λ t,
       match t with
       | Num z => Some (pretty z)
       | NaN => None
       end;
     parseInt10 := λ s,
       match String.list_ascii_of_string s with
       | [a; b] => from_option Num NaN (digits2 a b)
       | _ => NaN
       end |}.

Section Samples.
Context `{JsRuntime}.

Definition emptyRun (id : string) : RawRun :=
  {| run_id := id; run_status := None; run_start_time := None;
     run_end_time := None; run_extra := None; run_outputs := None;
     run_messages := None; run_prompt_tokens := None;
     run_completion_tokens := None; run_total_tokens := None;
     run_prompt_cost := None; run_completion_cost := None;
     run_total_cost := None; run_first_token_time := None;
     run_feedback_stats := None |}.

Definition timedRun (id : string) (start end_ : option string) : RawRun :=
  {| run_id := id; run_status := None; run_start_time := start;
     run_end_time := end_; run_extra := None; run_outputs := None;
     run_messages := None; run_prompt_tokens := None;
     run_completion_tokens := None; run_total_tokens := None;
     run_prompt_cost := None; run_completion_cost := None;
     run_total_cost := None; run_first_token_time := None;
     run_feedback_stats := None |}.

Definition runWithMetadata (id : string) (meta : gmap string jsval) : RawRun :=
  {| run_id := id; run_status := None; run_start_time := None;
     run_end_time := None;
     run_extra := Some {| extra_metadata := Some meta |};
     run_outputs := None;
     run_messages := None; run_prompt_tokens := None;
     run_completion_tokens := None; run_total_tokens := None;
     run_prompt_cost := None; run_completion_cost := None;
     run_total_cost := None; run_first_token_time := None;
     run_feedback_stats := None |}.

Definition runWithStats (id : string) (stats : gmap string jsval) : RawRun :=
  {| run_id := id; run_status := None; run_start_time := None;
     run_end_time := None; run_extra := None; run_outputs := None;
     run_messages := None; run_prompt_tokens := None;
     run_completion_tokens := None; run_total_tokens := None;
     run_prompt_cost := None; run_completion_cost := None;
     run_total_cost := None; run_first_token_time := None;
     run_feedback_stats := Some stats |}.

Definition threadRun (id tid : string) : RawRun :=
  runWithMetadata id {[ "thread_id" := JString tid ]}.

Definition sessionRun (id sid : string) : RawRun :=
  runWithMetadata id {[ "session_id" := JString sid ]}.

End Samples.

(** The blank-line separator. *)
Definition SEP : string := String LF (String LF EmptyString).

(** Whether the last character of a text is a line feed. *)
Fixpoint ends_LF (s : string) : bool :=
  match s with
  | EmptyString => false
  | String c EmptyString => is_LF c
  | String _ s' => ends_LF s'
  end.

Definition quoted (s : string) : string := String "034" (s +:+ String "034" EmptyString).

Definition msgHello : string :=
  "{" +:+ quoted "type" +:+ ":" +:+ quoted "human" +:+ ","
      +:+ quoted "content" +:+ ":" +:+ quoted "Hello" +:+ "}".

Definition msgHi : string :=
  "{" +:+ quoted "type" +:+ ":" +:+ quoted "ai" +:+ ","
      +:+ quoted "content" +:+ ":" +:+ quoted "Hi" +:+ "}".

(** A remote service for the examples. The query finds the runs A, B and
    C, or five runs of the threads a, a, b, a, c when it is scoped to a
    project; the fetch of run B and of thread b fail; run C has a positive
    feedback count and the feedback request is rejected. *)
Definition sampleRemote : @Remote sampleRuntime :=
  {| remote_run := λ id,
       if bool_decide (id = "B") then NotOk 500 "boom"
       else if bool_decide (id = "C")
            then Ok200 (runWithStats (H := sampleRuntime) id {[ "score" := JNumber (Num 1) ]})
            else Ok200 (emptyRun (H := sampleRuntime) id);
     remote_query := λ body,
       match body_session body with
       | Some _ =>
           Ok200 {| runs := Some [threadRun (H := sampleRuntime) "1" "a";
                                  threadRun "2" "a"; sessionRun "3" "b";
                                  threadRun "4" "a"; threadRun "5" "c"] |}
       | None =>
           Ok200 {| runs := Some [emptyRun (H := sampleRuntime) "A";
                                  emptyRun "B"; emptyRun "C"] |}
       end;
     remote_thread := λ tid _,
       if bool_decide (tid = JString "b") then FetchRejected
       else Ok200 {| all_messages := msgHello +:+ SEP +:+ msgHi |};
     remote_feedback := λ _, FetchRejected |}.

Definition sampleWorld : @World sampleRuntime :=
  {| cfg := {| env_LANGSMITH_API_KEY := Some "key"; config_api_key := None |};
     now := 1735689600000;
     index := sampleRemote;
     item_net := λ _, sampleRemote |}.

Definition sampleTracesOptions : FetchTracesOptions :=
  {| ft_limit := Some (Num 3); ft_projectUuid := None; ft_lastNMinutes := None;
     ft_since := None; ft_maxConcurrent := Some (Num 2);
     ft_includeMetadata := None; ft_includeFeedback := None;
     ft_onProgress := true |}.

Definition sampleThreadsOptions (limit : Z) : FetchThreadsOptions :=
  {| fth_projectUuid := "proj"; fth_limit := Some (Num limit);
     fth_lastNMinutes := None; fth_since := None; fth_maxConcurrent := None;
     fth_onProgress := true |}.

(** ** Definitions used to state the properties *)

(** The ids the deduplicator considers, in the order of the runs: the
    truthy values of [thread_id ?? session_id]. *)
Definition candidateId `{JsRuntime} (run : RawRun) : option jsval :=
  match threadIdOf run with
  | Some v => if truthy v then Some v else None
  | None => None
  end.

Definition candidateIds `{JsRuntime} (runs : list RawRun) : list jsval :=
  omap candidateId runs.

(** Each distinct element once, at the place of its first occurrence. *)
Fixpoint dedupFirst (ids : list jsval) : list jsval :=
  match ids with
  | [] => []
  | x :: rest => x :: filter (λ y, y ≠ x) (dedupFirst rest)
  end.

(** The number of ids after which the scan stops: the cap is tested after
    an insertion only, so it is never below one. *)
Definition cap (limit : Z) : nat := Z.to_nat (Z.max limit 1).

(** The arguments of the calls of the progress callback, oldest first. *)
Definition progress_calls (evs : list event) : list (nat * nat) :=
  omap (λ ev, match ev with Progress c t => Some (c, t) | _ => None end) evs.

(** The requests handed to [fetch], oldest first. *)
Definition requests (evs : list event) : list request :=
  omap (λ ev, match ev with Fetch r => Some r | _ => None end) evs.


Section BulkSpec.
Context {Item Res : Type}.
Variable task : nat -> Item -> io Res.
Variable failed : Item -> exn -> warning.
Variable onProgress : bool.
Variable items : list Item.

(** The calls the limiter still holds: in flight or queued. *)
Definition pending (s : @bulk Res) : list nat :=
  active (lim s) ++ waiting (lim s).

(** The value of a fetch that succeeded. *)
Definition succeeded (r : io Res) : option Res :=
  match outcome r with
  | Return v => Some v
  | Throw _ => None
  end.

Definition result_at (i : nat) : option Res :=
  items !! i ≫= λ item, succeeded (task i item).

(** The results of the fetches that succeed, walking the items in their
    order from position [i] on. *)
Fixpoint successes_from (i : nat) (l : list Item) : list Res :=
  match l with
  | [] => []
  | item :: rest =>
      match succeeded (task i item) with
      | Some v => v :: successes_from (S i) rest
      | None => successes_from (S i) rest
      end
  end.


(** One step of the batch, under some action of the event loop. *)
Definition bulk_steps (s s' : @bulk Res) : Prop :=
  ∃ a, bulk_step task failed onProgress items a s = Some s'.

(** The states the batch can be in, whatever the interleaving. *)
Definition bulk_reachable (l : limiter) (s : @bulk Res) : Prop :=
  rtc bulk_steps (bulk_init items l) s.

(** What the progress callback must have seen after [c] settlements. *)
Definition expected_calls (c : nat) : list (nat * nat) :=
  if onProgress then (λ j, (j, length items)) <$> seq 1 c else [].

(** What holds of the batch at every point of every interleaving. *)
Record bulk_inv (k : nat) (s : @bulk Res) : Prop := {
  inv_conc : concurrency (lim s) = k;
  inv_nodup : NoDup (pending s);
  inv_range : ∀ i, i ∈ pending s → (i < length items)%nat;
  inv_active : (length (active (lim s)) ≤ k)%nat;
  inv_count : (completed s + length (pending s))%nat = length items;
  inv_promises :
    promises s
    = (λ i, if bool_decide (i ∈ pending s) then None
            else Some (result_at i)) <$> seq 0 (length items);
  inv_calls :
    (∀ i item, progress_calls (events (task i item)) = []) →
    progress_calls (console s) = expected_calls (completed s);
  inv_events : ∀ i item ev,
    items !! i = Some item → i ∉ pending s → ev ∈ events (task i item) →
    ev ∈ console s;
}.

End BulkSpec.

(** The query that opens both bulk fetchers. *)
Definition runsQuery `{JsRuntime} (w : World) (body : QueryBody) : io RunsQueryResponse :=
  apiRequest (cfg w) (PostRunsQuery body) (remote_query (index w) body).

(** A computation that never calls the progress callback. *)
Definition quiet {A} (m : io A) : Prop := progress_calls (events m) = [].

Section Statements.
Context `{JsRuntime}.

(** What one segment contributes: nothing when it is blank after the trim
    or does not decode, its decoded message otherwise. *)
Definition decode_segment (seg : string) : option Message :=
  if truthy_str (trim seg) then JSON_parse (trim seg) else None.

Definition wantsMetadata (options : option TraceOptions) : bool :=
  default false (options ≫= opt_includeMetadata).

Definition wantsFeedback (options : option TraceOptions) : bool :=
  default false (options ≫= opt_includeFeedback).

(** The statement that each of the two fields is present exactly when it
    was itself requested. *)
Definition present_iff_requested (c : Config) (net : Remote) (traceId : string)
    (options : option TraceOptions) : Prop :=
  ∀ trace : TraceData,
    outcome (fetchTrace c net traceId options) = Return trace →
    (is_Some (trace_metadata trace) ↔ wantsMetadata options = true)
    ∧ (is_Some (trace_feedback trace) ↔ wantsFeedback options = true).

(** The statement that a call with both time filters fails before any
    request is made. *)
Definition rejects_both_filters (w : World) (opts : FetchTracesOptions)
    (sched : list action) : Prop :=
  is_Some (ft_lastNMinutes opts) → is_Some (ft_since opts) →
  (∃ e, outcome (fetchTraces w opts sched) = Throw e)
  ∧ requests (events (fetchTraces w opts sched)) = [].

(** The start of the window of the last [n] minutes. *)
Definition windowStart (now : Z) (n : jsnum) : jsnum :=
  js_sub (Num now) (js_mul (js_mul n (Num 60)) (Num 1000)).

(** The conversion of a time value to the text of [start_time]. *)
Definition isoOrThrow (t : jsnum) : result (option string) :=
  match Date_toISOString t with
  | Some iso => Return (Some iso)
  | None => Throw RangeError
  end.

End Statements.

Definition metadataOnly : option TraceOptions :=
  Some {| opt_includeMetadata := Some true; opt_includeFeedback := Some false |}.

Definition feedbackOnly : option TraceOptions :=
  Some {| opt_includeMetadata := None; opt_includeFeedback := Some true |}.

(** The runs of a query: threads a, a, b, a, the third one named by its
    session id. *)
Definition sampleThreadRuns : list (@RawRun sampleRuntime) :=
  [threadRun "1" "a"; threadRun "2" "a"; sessionRun "3" "b"; threadRun "4" "a"].

(** The runs that the sample query finds for a call without a project. *)
Definition sampleTraceRuns : list (@RawRun sampleRuntime) :=
  [emptyRun "A"; emptyRun "B"; emptyRun "C"].

(** The batch of the sample call of fetchTraces (three runs under
    [maxConcurrent] 2) once two calls have been started: two calls in
    flight, the third one queued, nothing settled. *)
Definition twoInFlight : @bulk (@TraceData sampleRuntime) :=
  {| lim := {| concurrency := 2; waiting := [2%nat]; active := [0%nat; 1%nat] |};
     completed := 0;
     console := [];
     promises := [None; None; None] |}.

Definition bothFilters : FetchTracesOptions :=
  {| ft_limit := None; ft_projectUuid := None;
     ft_lastNMinutes := Some (Num 30);
     ft_since := Some "2025-01-01T00:00:00Z";
     ft_maxConcurrent := None; ft_includeMetadata := None;
     ft_includeFeedback := None; ft_onProgress := false |}.

(** ** Configuration (src/config.ts) *)

(** What the configuration functions read: [process.env], and the object
    that [loadConfig] returns (the parsed file, or the empty object when
    the file is missing or cannot be read). *)
Record Environment := {
  processEnv : gmap string string;
  configFile : gmap string jsval;
}.

(** [s.replace(/c/g, d)] for single characters [c] and [d]. *)
Fixpoint replace_char (c d : ascii) (s : string) : string :=
  match s with
  | EmptyString => EmptyString
  | String x s' =>
      String (if bool_decide (x = c) then d else x) (replace_char c d s')
  end.

(** Lines 39-47: the key is looked up in its hyphen spelling first, then
    in its underscore spelling. *)
Definition getConfigValue (e : Environment) (key : string) : option jsval :=
  let hyphenKey := replace_char "_" "-" key in
  let underscoreKey := replace_char "-" "_" key in
  nullish (configFile e !! hyphenKey) (configFile e !! underscoreKey).

(** Truthiness of a value that may be undefined. *)
Definition truthy_opt (o : option jsval) : bool :=
  match o with
  | Some v => truthy v
  | None => false
  end.

(** Lines 49-60, over the environment. *)
Definition getApiKeyOf (e : Environment) : result jsval :=
  let envKey := processEnv e !! "LANGSMITH_API_KEY" in
  if truthy_ostr envKey then Return (JString (default EmptyString envKey))
  else
    let configKey := getConfigValue e "api-key" in
    if truthy_opt configKey then Return (default JNull configKey)
    else Throw ConfigError.

Definition defaultBaseUrl : string := "https://api.smith.langchain.com".

(** Lines 62-68: [a || b || c]. *)
Definition getBaseUrl (e : Environment) : jsval :=
  let envUrl := processEnv e !! "LANGSMITH_ENDPOINT" in
  if truthy_ostr envUrl then JString (default EmptyString envUrl)
  else
    let configUrl := getConfigValue e "base-url" in
    if truthy_opt configUrl then default JNull configUrl
    else JString defaultBaseUrl.

Inductive OutputFormat :=
  | FormatRaw
  | FormatJson
  | FormatPretty.

(** Lines 70-74. *)
Definition getDefaultFormat (e : Environment) : OutputFormat :=
  let fmt := getConfigValue e "default-format" in
  if bool_decide (fmt = Some (JString "raw")) then FormatRaw
  else if bool_decide (fmt = Some (JString "json")) then FormatJson
  else if bool_decide (fmt = Some (JString "pretty")) then FormatPretty
  else FormatPretty.

(** What one call of [getProjectUuid] did: the project names it looked up
    on the remote service, how it completed, and [projectUuidCache]
    afterwards. *)
Record ProjectLookup := {
  lookups : list string;
  resolved : result (option jsval);
  cacheAfter : option string;
}.

(** Lines 76-103: the answer of [GET /sessions?name=...] is the list of
    the ids of the sessions found, [None] for a null body. *)
Definition lookupProjectUuidByName (answer : http (option (list string))) : result string :=
  match answer with
  | FetchRejected => Throw NetworkError
  | NotOk st text => Throw (ApiError st text)
  | JsonRejected => Throw SyntaxError
  | Ok200 None => Throw ConfigError
  | Ok200 (Some []) => Throw ConfigError
  | Ok200 (Some (id :: _)) => Return id
  end.

(** Lines 105-123. [cache] is the module variable [projectUuidCache]
    ([None] for null), [sessions] the remote service. *)
Definition getProjectUuid (e : Environment)
    (sessions : string -> http (option (list string)))
    (cache : option string) : ProjectLookup :=
  let envUuid := processEnv e !! "LANGSMITH_PROJECT_UUID" in
  if truthy_ostr envUuid then
    {| lookups := []; resolved := Return (JString <$> envUuid); cacheAfter := cache |}
  else
    let envProject := processEnv e !! "LANGSMITH_PROJECT" in
    if truthy_ostr envProject then
      if truthy_ostr cache then
        {| lookups := []; resolved := Return (JString <$> cache); cacheAfter := cache |}
      else
        match getApiKeyOf e with
        | Throw err => {| lookups := []; resolved := Throw err; cacheAfter := cache |}
        | Return _ =>
            let name := default EmptyString envProject in
            match lookupProjectUuidByName (sessions name) with
            | Throw err =>
                {| lookups := [name]; resolved := Throw err; cacheAfter := cache |}
            | Return uuid =>
                {| lookups := [name]; resolved := Return (Some (JString uuid));
                   cacheAfter := Some uuid |}
            end
        end
    else
      {| lookups := []; resolved := Return (getConfigValue e "project-uuid");
         cacheAfter := cache |}.

(** ** File names (src/utils.ts, and src/cli.ts lines 299-302, 513-516) *)

(** [\w] *)
Definition is_word_char (c : ascii) : bool :=
  let n := nat_of_ascii c in
  (bool_decide (48 <= n)%nat && bool_decide (n <= 57)%nat)
  || (bool_decide (65 <= n)%nat && bool_decide (n <= 90)%nat)
  || (bool_decide (97 <= n)%nat && bool_decide (n <= 122)%nat)
  || bool_decide (n = 95%nat).

(** The characters that [/[^\w\-.]/g] leaves in place. *)
Definition is_safe_char (c : ascii) : bool :=
  is_word_char c || bool_decide (c = "-"%char) || bool_decide (c = "."%char).

Fixpoint replace_unsafe (s : string) : string :=
  match s with
  | EmptyString => EmptyString
  | String c s' =>
      String (if is_safe_char c then c else "_"%char) (replace_unsafe s')
  end.

(** [[.\s]] *)
Definition is_dot_or_space (c : ascii) : bool :=
  bool_decide (c = "."%char) || is_js_space c.

(** The leading match of [/^[.\s]+|[.\s]+$/g] removed. *)
Fixpoint strip_leading (s : string) : string :=
  match s with
  | EmptyString => EmptyString
  | String c s' => if is_dot_or_space c then strip_leading s' else s
  end.

(** The trailing match removed. *)
Fixpoint strip_trailing (s : string) : string :=
  match s with
  | EmptyString => EmptyString
  | String c s' =>
      match strip_trailing s' with
      | EmptyString => if is_dot_or_space c then EmptyString else String c EmptyString
      | t => String c t
      end
  end.

(** [s.slice(0, n)] *)
Fixpoint slice0 (n : nat) (s : string) : string :=
  match n, s with
  | S n', String c s' => String c (slice0 n' s')
  | _, _ => EmptyString
  end.

Definition sanitizeFilename (name : string) : string :=
  let safe := replace_unsafe name in
  let safe := strip_trailing (strip_leading safe) in
  if bool_decide (255 < String.length safe)%nat then slice0 255 safe else safe.

(** [s.endsWith(suffix)] *)
Fixpoint endsWith (suffix s : string) : bool :=
  if bool_decide (s = suffix) then true
  else
    match s with
    | EmptyString => false
    | String _ s' => endsWith suffix s'
    end.

(** The name of the file a trace or thread is saved to, from the file
    name that the pattern gave. *)
Definition jsonFilename (filename : string) : string :=
  let safeFilename := sanitizeFilename filename in
  if endsWith ".json" safeFilename then safeFilename
  else safeFilename +:+ ".json".

(** ** Definitions used to state the further properties *)

(** The lines written to [console.error], oldest first. *)
Definition warnings (evs : list event) : list warning :=
  omap (λ ev, match ev with ConsoleError w => Some w | _ => None end) evs.

(** [segs.join(sep)] *)
Fixpoint joinWith (sep : string) (segs : list string) : string :=
  match segs with
  | [] => EmptyString
  | [seg] => seg
  | seg :: rest => seg +:+ sep +:+ joinWith sep rest
  end.

(** Whether every character of a text satisfies [p]. *)
Fixpoint all_chars (p : ascii -> bool) (s : string) : bool :=
  match s with
  | EmptyString => true
  | String c s' => p c && all_chars p s'
  end.

(** The first character of a text. *)
Definition first_char (s : string) : option ascii :=
  match s with
  | EmptyString => None
  | String c _ => Some c
  end.

(** An environment for the examples: the key in the file under its
    underscore spelling, a project named by [LANGSMITH_PROJECT]. *)
Definition sampleEnvironment : Environment :=
  {| processEnv := {[ "LANGSMITH_PROJECT" := "my-project" ]};
     configFile := {[ "api_key" := JString "file-key";
                      "default-format" := JString "yaml" ]} |}.

(** A text that does not begin with a dot or white space. *)
Definition clean_start (s : string) : Prop :=
  match s with
  | EmptyString => True
  | String c _ => is_dot_or_space c = false
  end.

Section BatchBlocks.
Context {Item Res X : Type}.
Variable task : nat -> Item -> io Res.
Variable failed : Item -> exn -> warning.
Variable items : list Item.
Variable f : event -> option X.

(** What the wrapped function of one item writes besides the progress
    report: the events of its fetch, and the warning when the fetch
    failed. *)
Definition item_block (i : nat) (item : Item) : list event :=
  events (task i item)
  ++ match outcome (task i item) with
     | Return _ => []
     | Throw e => [ConsoleError (failed item e)]
     end.

(** The blocks of the items from position [i] on, in item order. *)
Fixpoint blocks_from (i : nat) (l : list Item) : list event :=
  match l with
  | [] => []
  | item :: rest => item_block i item ++ blocks_from (S i) rest
  end.

(** The part of the block of the item at position [i] that [f] keeps. *)
Definition block_at (i : nat) : list X :=
  match items !! i with
  | Some item => omap f (item_block i item)
  | None => []
  end.

(** [order] lists the items that have settled, in the order in which
    they did, and the console holds their blocks in that order. *)
Definition settled_in (order : list nat) (s : @bulk Res) : Prop :=
  NoDup order
  ∧ (∀ i, i ∈ order ↔ (i < length items)%nat ∧ i ∉ pending s)
  ∧ omap f (console s) = order ≫= block_at.

End BatchBlocks.

(** The sample world without credentials. *)
Definition noKeyWorld : @World sampleRuntime :=
  {| cfg := {| env_LANGSMITH_API_KEY := None; config_api_key := Some EmptyString |};
     now := now sampleWorld;
     index := sampleRemote;
     item_net := λ _, sampleRemote |}.

(** The sample service with a feedback endpoint that answers 503. *)
Definition feedbackDownRemote : @Remote sampleRuntime :=
  {| remote_run := remote_run sampleRemote;
     remote_query := remote_query sampleRemote;
     remote_thread := remote_thread sampleRemote;
     remote_feedback := λ _, NotOk 503 "unavailable" |}.

(** A run with a [messages] field that is present and empty, and with
    a message in its outputs. *)
Definition runWithBothMessages (id : string) : @RawRun sampleRuntime :=
  @Build_RawRun sampleRuntime id None None None None
    (Some (@Build_RunOutputs sampleRuntime (Some [msgHello])))
    (Some []) None None None None None None None None.

(** The sample service, every run of which is such a run. *)
Definition messagesRemote : @Remote sampleRuntime :=
  {| remote_run := λ id, Ok200 (runWithBothMessages id);
     remote_query := remote_query sampleRemote;
     remote_thread := remote_thread sampleRemote;
     remote_feedback := remote_feedback sampleRemote |}.

(** What [fetchTrace] makes of such a run for a caller that asks for the
    metadata only. *)
Definition bothMessagesTrace : @TraceData sampleRuntime :=
  @Build_TraceData sampleRuntime "M" []
    (Some (extractRunMetadata (runWithBothMessages "M"))) (Some []).

(** The body of the query of [fetchThreads] in the sample world. *)
Definition sampleThreadsBody : QueryBody :=
  {| body_is_root := true; body_filter := None; body_limit := None;
     body_session := Some ["proj"]; body_start_time := None |}.

(** A sessions endpoint that knows one project. *)
Definition sampleSessions (name : string) : http (option (list string)) :=
  if bool_decide (name = "my-project") then Ok200 (Some ["uuid-1"; "uuid-2"])
  else Ok200 (Some []).

(** The answer of the sample service to the query of [fetchThreads]. *)
Definition sampleThreadsData : @RunsQueryResponse sampleRuntime :=
  {| runs := Some [threadRun "1" "a"; threadRun "2" "a"; sessionRun "3" "b";
                   threadRun "4" "a"; threadRun "5" "c"] |}.

(** A world whose query finds nothing, and options with a concurrency
    bound that [pLimit] would refuse. *)
Definition emptyIndexWorld : @World sampleRuntime :=
  {| cfg := cfg sampleWorld;
     now := now sampleWorld;
     index := {| remote_run := remote_run sampleRemote;
                 remote_query := λ _, Ok200 {| runs := None |};
                 remote_thread := remote_thread sampleRemote;
                 remote_feedback := remote_feedback sampleRemote |};
     item_net := λ _, sampleRemote |}.

Definition zeroConcurrency : FetchTracesOptions :=
  {| ft_limit := None; ft_projectUuid := None; ft_lastNMinutes := None;
     ft_since := None; ft_maxConcurrent := Some (Num 0);
     ft_includeMetadata := None; ft_includeFeedback := None;
     ft_onProgress := true |}.

(** An environment that names another project. *)
Definition otherEnvironment : Environment :=
  {| processEnv := {[ "LANGSMITH_PROJECT" := "other-project" ]};
     configFile := ∅ |}.

(** * Properties *)

(** ** The model on the examples of the specification *)

Example sample_duration :
  durationOf (H := sampleRuntime)
    (timedRun "r" (Some "2025-01-01T00:00:00Z") (Some "2025-01-01T00:00:01Z"))
  = Some (Num 1000).
Proof. vm_compute. reflexivity. Qed.

Example sample_split :
  split_nn ("a" +:+ String LF (String LF (String LF "b"))) = ["a"; String LF "b"].
Proof. vm_compute. reflexivity. Qed.

Example sample_trim : trim (String LF "  a b  ") = "a b".
Proof. vm_compute. reflexivity. Qed.

Example sample_select :
  selectThreadIds (H := sampleRuntime) (Num 2)
    [threadRun "1" "a"; threadRun "2" "a"; threadRun "3" "b";
     threadRun "4" "a"; threadRun "5" "c"]
  = [JString "a"; JString "b"].
Proof. vm_compute. reflexivity. Qed.

(** ** Message-stream parser *)

Lemma split_nn_nonempty (s : string) : split_nn s ≠ [].
Proof.
  destruct s as [|c s]; simpl; [done|].
  destruct (is_LF c); destruct s as [|c' s'']; simpl; try done;
    repeat case_match; done.
Qed.

Lemma split_nn_cons_plain (c : ascii) (s : string) :
  (is_LF c = false ∨ match s with String c' _ => is_LF c' = false | EmptyString => True end) →
  split_nn (String c s) =
    match split_nn s with
    | h :: t => String c h :: t
    | [] => [String c EmptyString]
    end.
Proof.
  intros Hc. cbn [split_nn]. destruct (is_LF c) eqn:E; [|done].
  destruct s as [|c' s']; [done|].
  destruct Hc as [Hc|Hc]; [done|]. by rewrite Hc.
Qed.

Lemma split_nn_sep_l (s : string) : split_nn (SEP +:+ s) = EmptyString :: split_nn s.
Proof. reflexivity. Qed.

Lemma split_nn_app_aux (b : string) (n : nat) :
  ∀ a : string, (String.length a ≤ n)%nat → ends_LF a = false →
    split_nn (a +:+ SEP +:+ b) = split_nn a ++ split_nn b.
Proof.
  induction n as [n IH] using lt_wf_ind. intros a Hlen Hend.
  destruct a as [|c a']; [reflexivity|].
  destruct (is_LF c) eqn:Ec; last first.
  { change (String c a' +:+ SEP +:+ b) with (String c (a' +:+ SEP +:+ b)).
    rewrite !split_nn_cons_plain by (by left).
    assert (Ha' : ends_LF a' = false).
    { destruct a' as [|c' a'']; [done|]. exact Hend. }
    simpl in Hlen.
    rewrite (IH (String.length a')) by (done || lia).
    pose proof (split_nn_nonempty a'). by destruct (split_nn a'). }
  destruct a' as [|c' a''].
  { simpl in Hend. congruence. }
  destruct (is_LF c') eqn:Ec'.
  - change (split_nn (String c (String c' a'') +:+ SEP +:+ b))
      with (if is_LF c then
              if is_LF c' then EmptyString :: split_nn (a'' +:+ SEP +:+ b)
              else match split_nn (String c' (a'' +:+ SEP +:+ b)) with
                   | h :: t => String c h :: t
                   | [] => [String c EmptyString]
                   end
            else match split_nn (String c' (a'' +:+ SEP +:+ b)) with
                 | h :: t => String c h :: t
                 | [] => [String c EmptyString]
                 end).
    change (split_nn (String c (String c' a'')))
      with (if is_LF c then
              if is_LF c' then EmptyString :: split_nn a''
              else match split_nn (String c' a'') with
                   | h :: t => String c h :: t
                   | [] => [String c EmptyString]
                   end
            else match split_nn (String c' a'') with
                 | h :: t => String c h :: t
                 | [] => [String c EmptyString]
                 end).
    rewrite Ec, Ec'.
    assert (Ha'' : ends_LF a'' = false).
    { destruct a'' as [|c'' a3]; [done|]. exact Hend. }
    simpl in Hlen.
    rewrite (IH (String.length a'')) by (done || lia). done.
  - change (String c (String c' a'') +:+ SEP +:+ b)
      with (String c (String c' a'' +:+ SEP +:+ b)).
    rewrite (split_nn_cons_plain c (String c' a'' +:+ SEP +:+ b)) by (right; exact Ec').
    rewrite (split_nn_cons_plain c (String c' a'')) by (right; exact Ec').
    simpl in Hlen.
    rewrite (IH (String.length (String c' a''))) by (done || simpl; lia).
    pose proof (split_nn_nonempty (String c' a'')).
    by destruct (split_nn (String c' a'')).
Qed.

Lemma split_nn_app (a b : string) :
  ends_LF a = false → split_nn (a +:+ SEP +:+ b) = split_nn a ++ split_nn b.
Proof. intros. by eapply split_nn_app_aux. Qed.

Section MessageStreamProps.
Context `{JsRuntime}.

Lemma fold_parse_segment (segs : list string) (acc : list Message) :
  fold_left parse_segment segs acc = acc ++ omap decode_segment segs.
Proof.
  revert acc. induction segs as [|seg segs IH]; intros acc; simpl.
  { by rewrite app_nil_r. }
  rewrite IH. unfold parse_segment, decode_segment.
  destruct (truthy_str (trim seg)); [|done].
  destruct (JSON_parse (trim seg)); [|done].
  by rewrite <- app_assoc.
Qed.

Lemma parseMessages_segments (blob : string) :
  parseMessages blob = omap decode_segment (split_nn blob).
Proof. unfold parseMessages. by rewrite fold_parse_segment. Qed.

Lemma omap_decode_pipeline (segs : list string) :
  omap decode_segment segs
  = omap JSON_parse (filter (λ t, t ≠ EmptyString) (trim <$> segs)).
Proof.
  induction segs as [|seg segs IH]; [done|].
  rewrite fmap_cons, filter_cons.
  change (omap decode_segment (seg :: segs))
    with (match decode_segment seg with
          | Some m => m :: omap decode_segment segs
          | None => omap decode_segment segs
          end).
  unfold decode_segment at 1.
  destruct (trim seg) as [|c t] eqn:E; cbn [truthy_str].
  - rewrite decide_False by (intros ?; done). exact IH.
  - rewrite decide_True by done.
    change (omap JSON_parse (String c t :: ?l))
      with (match JSON_parse (String c t) with
            | Some m => m :: omap JSON_parse l
            | None => omap JSON_parse l
            end).
    by rewrite IH.
Qed.

Lemma parseMessages_app (a b : string) :
  ends_LF a = false →
  parseMessages (a +:+ SEP +:+ b) = parseMessages a ++ parseMessages b.
Proof.
  intros Ha. rewrite !parseMessages_segments, split_nn_app by done.
  apply omap_app.
Qed.

(** C7. The message-stream parser splits the blob on the blank-line
    separator, trims every segment, discards the empty ones and decodes the
    others in source order, dropping those that do not decode. The result
    is composed segment by segment: the messages of [a], a separator and
    [b] are those of [a] followed by those of [b], and a segment that does
    not decode, put between two blobs, changes nothing. *)
Theorem parseMessages_spec :
  (∀ blob : string,
     parseMessages blob
     = omap JSON_parse (filter (λ t, t ≠ EmptyString) (trim <$> split_nn blob)))
  ∧ (∀ a b : string, ends_LF a = false →
       parseMessages (a +:+ SEP +:+ b) = parseMessages a ++ parseMessages b)
  ∧ (∀ a bad b : string,
       ends_LF a = false → ends_LF bad = false →
       split_nn bad = [bad] → JSON_parse (trim bad) = None →
       parseMessages (a +:+ SEP +:+ bad +:+ SEP +:+ b)
       = parseMessages a ++ parseMessages b).
Proof.
  split; [|split].
  - intros blob. rewrite parseMessages_segments. apply omap_decode_pipeline.
  - apply parseMessages_app.
  - intros a bad b Ha Hbad Hone Hfail.
    rewrite !parseMessages_app by done. f_equal.
    rewrite (parseMessages_segments bad), Hone.
    change (omap decode_segment [bad])
      with (match decode_segment bad with
            | Some m => [m]
            | None => []
            end).
    unfold decode_segment. rewrite Hfail.
    by destruct (truthy_str (trim bad)).
Qed.

End MessageStreamProps.

Lemma parseMessages_spec_witness :
  parseMessages (H := sampleRuntime)
    (msgHello +:+ SEP +:+ "not json" +:+ SEP +:+ msgHi) = [msgHello; msgHi]
  ∧ parseMessages (H := sampleRuntime) (msgHello +:+ SEP +:+ msgHi)
    = [msgHello; msgHi].
Proof.
  destruct (parseMessages_spec (H := sampleRuntime)) as (Hpipe & Happ & Hdrop).
  split.
  - rewrite (Hdrop msgHello "not json" msgHi); reflexivity.
  - rewrite (Happ msgHello msgHi); reflexivity.
Defined.

(** ** Thread-id deduplicator *)

Lemma dedupFirst_filter (P : jsval → Prop) {HP : ∀ x, Decision (P x)} (l : list jsval) :
  dedupFirst (filter P l) = filter P (dedupFirst l).
Proof.
  induction l as [|x l IH]; [done|].
  rewrite filter_cons. destruct (decide (P x)) as [Hx|Hx]; simpl.
  - rewrite filter_cons_True by done. f_equal.
    rewrite IH, !list_filter_filter. apply list_filter_iff. intros y. tauto.
  - rewrite filter_cons_False by done. rewrite IH.
    rewrite list_filter_filter. apply list_filter_iff.
    intros y. split; [|tauto]. intros Hy. split; [done|].
    intros ->. done.
Qed.

Lemma dedupFirst_elem_of (l : list jsval) (x : jsval) : x ∈ dedupFirst l ↔ x ∈ l.
Proof.
  induction l as [|y l IH]; [done|]. simpl.
  rewrite !elem_of_cons, list_elem_of_filter, IH.
  destruct (decide (x = y)); intuition.
Qed.

Lemma dedupFirst_NoDup (l : list jsval) : NoDup (dedupFirst l).
Proof.
  induction l as [|x l IH]; simpl; [constructor|].
  constructor.
  - rewrite list_elem_of_filter. intros [Hne _]. by apply Hne.
  - by apply NoDup_filter.
Qed.

Lemma filter_not_in_nil (l : list jsval) : filter (λ y, y ∉ @nil jsval) l = l.
Proof.
  induction l as [|y l IHl]; [done|].
  rewrite filter_cons_True by apply not_elem_of_nil. by f_equal.
Qed.

Lemma dedupFirst_app (l1 l2 : list jsval) :
  dedupFirst (l1 ++ l2) = dedupFirst l1 ++ filter (λ y, y ∉ l1) (dedupFirst l2).
Proof.
  induction l1 as [|x l1 IH]; simpl.
  - by rewrite filter_not_in_nil.
  - f_equal. rewrite IH, filter_app. f_equal.
    rewrite list_filter_filter. apply list_filter_iff.
    intros y. rewrite not_elem_of_cons. tauto.
Qed.

Section DeduplicatorProps.
Context `{JsRuntime}.

Lemma map_has_spec (k : jsval) (m : list (jsval * option string)) :
  map_has k m = true ↔ k ∈ m.*1.
Proof.
  unfold map_has. rewrite existsb_exists, list_elem_of_fmap. split.
  - intros (kv & Hin & Hk). apply bool_decide_eq_true in Hk.
    exists kv. split; [done|]. by apply list_elem_of_In.
  - intros (kv & Hk & Hin). exists kv. split; [by apply list_elem_of_In|].
    by apply bool_decide_eq_true.
Qed.

Lemma candidateIds_cons (run : RawRun) (rest : list RawRun) :
  candidateIds (run :: rest) =
    match candidateId run with
    | Some v => v :: candidateIds rest
    | None => candidateIds rest
    end.
Proof. reflexivity. Qed.

Lemma scanThreadIds_spec (limit : Z) (runs : list RawRun) :
  ∀ acc : list (jsval * option string),
    (length acc < cap limit)%nat →
    (scanThreadIds (Num limit) runs acc).*1
    = acc.*1 ++ take (cap limit - length acc)
                  (dedupFirst (filter (λ y, y ∉ acc.*1) (candidateIds runs))).
Proof.
  induction runs as [|run rest IH]; intros acc Hlt.
  { simpl. by rewrite take_nil, app_nil_r. }
  rewrite candidateIds_cons. cbn [scanThreadIds]. unfold candidateId.
  destruct (threadIdOf run) as [v|]; [|by apply IH].
  destruct (truthy v) eqn:Hv; [|by apply IH]. cbn [andb].
  destruct (map_has v acc) eqn:Hhas; cbn [negb].
  - apply map_has_spec in Hhas.
    rewrite filter_cons_False by (intros Hn; by apply Hn). by apply IH.
  - assert (Hnot : v ∉ acc.*1).
    { intros Hin. apply map_has_spec in Hin. congruence. }
    rewrite filter_cons_True by done. cbn [dedupFirst].
    destruct (cap limit - length acc)%nat as [|m] eqn:Hm; [lia|].
    cbn [take]. rewrite length_app. cbn [length].
    unfold size_ge. case_bool_decide as Hge.
    + rewrite fmap_app. cbn. unfold cap in *.
      replace m with 0%nat by lia. cbn [take]. done.
    + rewrite IH by (rewrite length_app; cbn [length]; unfold cap in *; lia).
      rewrite fmap_app, <- app_assoc. cbn [fmap list_fmap app]. do 2 f_equal.
      rewrite length_app. cbn [length fst].
      replace (cap limit - (length acc + 1))%nat with m by lia. f_equal.
      rewrite <- dedupFirst_filter, list_filter_filter. f_equal.
      apply list_filter_iff. intros y.
      rewrite not_elem_of_app, list_elem_of_singleton. tauto.
Qed.

Lemma selectThreadIds_spec (limit : Z) (runs : list RawRun) :
  selectThreadIds (Num limit) runs
  = take (cap limit) (dedupFirst (candidateIds runs)).
Proof.
  unfold selectThreadIds. change (map fst ?l) with (l.*1).
  rewrite scanThreadIds_spec by (unfold cap; cbn; lia).
  cbn [fmap list_fmap app length]. rewrite Nat.sub_0_r. f_equal.
  by rewrite filter_not_in_nil.
Qed.
End DeduplicatorProps.

(** ** Bulk orchestrator *)

Lemma progress_calls_app (a b : list event) :
  progress_calls (a ++ b) = progress_calls a ++ progress_calls b.
Proof. apply omap_app. Qed.

Lemma filter_ne_notin (i : nat) (l : list nat) :
  i ∉ l → filter (λ j, j ≠ i) l = l.
Proof.
  induction l as [|x l IH]; [done|]. rewrite not_elem_of_cons. intros [Hx Hl].
  rewrite filter_cons_True by congruence. f_equal. by apply IH.
Qed.

Lemma length_filter_ne (i : nat) (l : list nat) :
  NoDup l → i ∈ l → S (length (filter (λ j, j ≠ i) l)) = length l.
Proof.
  induction 1 as [|x l Hx Hnd IH]; [by intros ?%elem_of_nil|].
  rewrite elem_of_cons. intros [->|Hin].
  - rewrite filter_cons_False by (intros Hn; by apply Hn).
    by rewrite filter_ne_notin.
  - rewrite filter_cons_True by (intros ->; done). simpl. f_equal. by apply IH.
Qed.

Lemma foldl_lim_submit (l : limiter) (xs : list nat) :
  foldl lim_submit l xs
  = {| concurrency := concurrency l; waiting := waiting l ++ xs; active := active l |}.
Proof.
  revert l. induction xs as [|x xs IH]; intros l; simpl.
  - rewrite app_nil_r. by destruct l.
  - rewrite IH. simpl. by rewrite <- app_assoc.
Qed.

Section BulkProps.
Context {Item Res : Type}.
Variable task : nat -> Item -> io Res.
Variable failed : Item -> exn -> warning.
Variable onProgress : bool.
Variable items : list Item.

Local Abbreviation step := (bulk_step task failed onProgress items).
Local Abbreviation n := (length items).

Local Abbreviation calls := (expected_calls onProgress items).
Local Abbreviation inv := (bulk_inv task onProgress items).

Lemma bulk_init_inv (k : nat) :
  inv k (bulk_init items {| concurrency := k; waiting := []; active := [] |}).
Proof.
  unfold bulk_init. rewrite foldl_lim_submit. cbn [waiting active concurrency app].
  split; unfold pending; cbn.
  - done.
  - apply NoDup_seq.
  - intros i Hi. apply elem_of_seq in Hi. lia.
  - lia.
  - by rewrite length_seq.
  - apply list_eq. intros i. rewrite list_lookup_fmap.
    destruct (decide (i < n)%nat) as [Hi|Hi].
    + rewrite (lookup_replicate_2 n _ i Hi). rewrite (lookup_seq_lt 0 n i Hi). cbn.
      rewrite bool_decide_eq_true_2; [done|]. apply elem_of_seq. lia.
    + rewrite (proj1 (lookup_replicate_None _ _ _)) by lia.
      rewrite lookup_seq_ge by lia. done.
  - intros _. unfold expected_calls. by destruct onProgress.
  - intros i item ev Hi Hnot. exfalso. apply Hnot, elem_of_seq.
    apply lookup_lt_Some in Hi. lia.
Qed.

Lemma lim_start_inv (l l' : limiter) :
  lim_start l = Some l' →
  ∃ i q, waiting l = i :: q ∧ (length (active l) < concurrency l)%nat
         ∧ l' = {| concurrency := concurrency l; waiting := q; active := active l ++ [i] |}.
Proof.
  unfold lim_start. destruct (waiting l) as [|i q]; [done|].
  case_bool_decide; [|done]. intros [= <-]. by exists i, q.
Qed.

Lemma lim_leave_inv (i : nat) (l l' : limiter) :
  lim_leave i l = Some l' →
  i ∈ active l
  ∧ l' = {| concurrency := concurrency l; waiting := waiting l;
            active := filter (λ j, j ≠ i) (active l) |}.
Proof. unfold lim_leave. case_bool_decide; [|done]. by intros [= <-]. Qed.

Lemma calls_S (c : nat) :
  calls (S c) = calls c ++ progress_calls (progress onProgress items (S c)).
Proof.
  unfold expected_calls, progress. destruct onProgress; [|done].
  by rewrite seq_S, fmap_app.
Qed.

Lemma settle_inv (k i : nat) (item : Item) (s : @bulk Res) (l' : limiter) :
  inv k s → lim_leave i (lim s) = Some l' → items !! i = Some item →
  inv k (settle task failed onProgress items i item l' s)
  ∧ pending (settle task failed onProgress items i item l' s)
    = filter (λ j, j ≠ i) (pending s)
  ∧ i ∈ active (lim s).
Proof.
  intros [Hc Hnd Hrg Hact Hcnt Hpr Hcalls Hev] Hleave Hitem.
  apply lim_leave_inv in Hleave as [Hin ->].
  assert (Hiw : i ∉ waiting (lim s)).
  { apply NoDup_app in Hnd as (_ & Hdisj & _). by apply Hdisj. }
  assert (Hip : i ∈ pending s) by (apply elem_of_app; by left).
  set (s' := settle task failed onProgress items i item _ s).
  assert (Hlim : lim s' = {| concurrency := concurrency (lim s);
                             waiting := waiting (lim s);
                             active := filter (λ j, j ≠ i) (active (lim s)) |}).
  { unfold s', settle. by destruct (task i item) as [evs [v|e]]. }
  assert (Hpend : pending s' = filter (λ j, j ≠ i) (pending s)).
  { unfold pending. rewrite Hlim. cbn [active waiting].
    by rewrite filter_app, (filter_ne_notin i (waiting (lim s))). }
  assert (Hcompl : completed s' = S (completed s)).
  { unfold s', settle. by destruct (task i item) as [evs [v|e]]. }
  assert (Hcons : ∃ extra, console s' = console s ++ events (task i item) ++ extra
            ∧ progress_calls extra = progress_calls (progress onProgress items (S (completed s)))).
  { unfold s', settle, events. destruct (task i item) as [evs [v|e]]; cbn [console fst].
    - by eexists.
    - eexists. split; [done|]. done. }
  assert (Hprom : promises s' = <[i := Some (result_at task items i)]> (promises s)).
  { unfold s', settle, result_at, succeeded, outcome. rewrite Hitem. cbn [mbind option_bind].
    by destruct (task i item) as [evs [v|e]]. }
  split; [|done].
  split.
  - by rewrite Hlim.
  - rewrite Hpend. by apply NoDup_filter.
  - intros j. rewrite Hpend, list_elem_of_filter. intros [_ Hj]. by apply Hrg.
  - rewrite Hlim. cbn [active]. etrans; [apply length_filter|done].
  - rewrite Hcompl, Hpend. pose proof (length_filter_ne i (pending s) Hnd Hip). lia.
  - rewrite Hprom, Hpr, Hpend. apply list_eq. intros j.
    destruct (decide (i = j)) as [<-|Hne].
    + rewrite list_lookup_insert_eq by (rewrite length_fmap, length_seq; by apply Hrg).
      rewrite list_lookup_fmap, lookup_seq_lt by (by apply Hrg). cbn.
      rewrite bool_decide_eq_false_2; [done|].
      rewrite list_elem_of_filter. intros [Hn _]. by apply Hn.
    + rewrite list_lookup_insert_ne by done. rewrite !list_lookup_fmap.
      destruct (seq 0 n !! j) as [j'|] eqn:Hj; [|done]. cbn.
      apply lookup_seq in Hj as [-> _]. cbn. f_equal.
      rewrite (bool_decide_ext (j ∈ filter (λ j0, j0 ≠ i) (pending s)) (j ∈ pending s));
        [done|].
      rewrite list_elem_of_filter. intuition congruence.
  - intros Hq. destruct Hcons as (extra & -> & Hextra).
    rewrite Hcompl, calls_S, !progress_calls_app, (Hcalls Hq), Hq, Hextra.
    done.
  - intros j item' ev Hj Hnot Hevin. destruct Hcons as (extra & -> & _).
    destruct (decide (j = i)) as [->|Hne].
    + rewrite Hitem in Hj. injection Hj as <-.
      apply elem_of_app. right. apply elem_of_app. by left.
    + apply elem_of_app. left. eapply Hev; [done| |done].
      intros Hp. apply Hnot. rewrite Hpend, list_elem_of_filter. done.
Qed.

Lemma step_inv (k : nat) (a : action) (s s' : @bulk Res) :
  inv k s → step a s = Some s' →
  inv k s' ∧ steps_left s = S (steps_left s').
Proof.
  intros Hinv Hstep. destruct a as [|i]; cbn [bulk_step] in Hstep.
  - destruct (lim_start (lim s)) as [l'|] eqn:Hstart; [|done].
    cbn in Hstep. injection Hstep as <-.
    apply lim_start_inv in Hstart as (i & q & Hw & Hlt & ->).
    destruct Hinv as [Hc Hnd Hrg Hact Hcnt Hpr Hcalls Hev].
    assert (Hpend : active (lim s) ++ [i] ++ q = pending s).
    { unfold pending. by rewrite Hw. }
    split.
    + split; unfold pending in *; cbn [lim active waiting concurrency completed console promises];
        rewrite <- ?app_assoc, ?Hpend; try done.
      rewrite length_app. cbn. lia.
    + unfold steps_left. cbn [lim active waiting]. rewrite Hw, length_app. cbn. lia.
  - destruct (lim_leave i (lim s)) as [l'|] eqn:Hleave; [|done].
    destruct (items !! i) as [item|] eqn:Hitem; [|done].
    cbn in Hstep. injection Hstep as <-.
    destruct (settle_inv k i item s l' Hinv Hleave Hitem) as (Hinv' & Hpend & Hin).
    split; [done|].
    apply lim_leave_inv in Hleave as [_ ->].
    assert (Hnd : NoDup (active (lim s))).
    { destruct Hinv as [_ Hnd _ _ _ _ _ _]. by apply NoDup_app in Hnd as (? & _ & _). }
    pose proof (length_filter_ne i (active (lim s)) Hnd Hin) as Hlen.
    unfold steps_left, settle. destruct (task i item) as [evs [v|e]];
      cbn [lim active waiting]; lia.
Qed.

Lemma next_action_enabled (k : nat) (s : @bulk Res) :
  inv k s → (1 ≤ k)%nat → bulk_final s = false →
  ∃ a s', next_action s = Some a ∧ step a s = Some s'.
Proof.
  intros Hinv Hk Hfin. unfold next_action.
  destruct (lim_start (lim s)) as [l'|] eqn:Hstart.
  { exists Start. eexists. split; [done|]. cbn [bulk_step]. by rewrite Hstart. }
  destruct (active (lim s)) as [|i rest] eqn:Hact.
  { exfalso. unfold lim_start in Hstart. unfold bulk_final in Hfin.
    rewrite Hact in Hfin.
    destruct (waiting (lim s)) as [|j q]; [done|].
    rewrite Hact in Hstart. cbn in Hstart.
    rewrite bool_decide_eq_true_2 in Hstart; [done|].
    destruct Hinv as [-> _ _ _ _ _ _ _]. lia. }
  exists (Settle i). cbn [bulk_step]. unfold lim_leave.
  rewrite bool_decide_eq_true_2 by (rewrite Hact; apply elem_of_cons; by left).
  cbn.
  assert (Hi : (i < n)%nat).
  { destruct Hinv as [_ _ Hrg _ _ _ _ _]. apply Hrg. unfold pending.
    rewrite Hact. apply elem_of_cons. by left. }
  destruct (lookup_lt_is_Some_2 items i Hi) as [item ->]. cbn. by eexists.
Qed.

Lemma steps_left_final (s : @bulk Res) :
  steps_left s = 0%nat → bulk_final s = true.
Proof.
  unfold steps_left, bulk_final.
  destruct (waiting (lim s)), (active (lim s)); cbn; done || lia.
Qed.

Lemma drain_final (k : nat) (fuel : nat) :
  ∀ s : @bulk Res, inv k s → (1 ≤ k)%nat → (steps_left s ≤ fuel)%nat →
    inv k (drain task failed onProgress items fuel s)
    ∧ bulk_final (drain task failed onProgress items fuel s) = true.
Proof.
  induction fuel as [|fuel IH]; intros s Hinv Hk Hfuel.
  { cbn. split; [done|]. apply steps_left_final. lia. }
  cbn [drain]. destruct (bulk_final s) eqn:Hfin.
  - assert (Hnone : next_action s = None).
    { unfold next_action, bulk_final in *. unfold lim_start.
      destruct (waiting (lim s)); [|done]. by destruct (active (lim s)). }
    by rewrite Hnone.
  - destruct (next_action_enabled k s Hinv Hk Hfin) as (a & s' & -> & Hstep).
    rewrite Hstep. destruct (step_inv k a s s' Hinv Hstep) as [Hinv' Hm].
    apply IH; [done|done|lia].
Qed.

Lemma sched_inv (k : nat) (sched : list action) :
  ∀ s : @bulk Res, inv k s →
    inv k (foldl (λ s a, default s (step a s)) s sched).
Proof.
  induction sched as [|a sched IH]; intros s Hinv; [done|].
  cbn [foldl]. apply IH. destruct (step a s) as [s'|] eqn:Hstep; [|done].
  by apply (step_inv k a s s').
Qed.

Lemma bulk_run_inv (k : nat) (sched : list action) :
  (1 ≤ k)%nat →
  let s := bulk_run task failed onProgress items sched
             {| concurrency := k; waiting := []; active := [] |} in
  inv k s ∧ bulk_final s = true.
Proof.
  intros Hk. unfold bulk_run. apply drain_final; [|done|done].
  apply sched_inv, bulk_init_inv.
Qed.

Lemma omap_result_at (pre rest : list Item) :
  omap (result_at task (pre ++ rest)) (seq (length pre) (length rest))
  = successes_from task (length pre) rest.
Proof.
  revert pre. induction rest as [|x rest IH]; intros pre; [done|].
  cbn [length seq successes_from].
  change (omap ?f (?a :: ?l))
    with (match f a with Some y => y :: omap f l | None => omap f l end).
  assert (Hx : result_at task (pre ++ x :: rest) (length pre)
               = succeeded (task (length pre) x)).
  { unfold result_at. by rewrite list_lookup_middle. }
  rewrite Hx. specialize (IH (pre ++ [x])).
  rewrite <- app_assoc, length_app in IH. cbn in IH.
  rewrite Nat.add_1_r in IH. by rewrite IH.
Qed.

Lemma final_collect (k : nat) (s : @bulk Res) :
  inv k s → bulk_final s = true →
  collect s = successes_from task 0 items
  ∧ ((∀ i item, progress_calls (events (task i item)) = []) →
     progress_calls (console s) = calls n).
Proof.
  intros [Hc Hnd Hrg Hact Hcnt Hpr Hcalls Hev] Hfin.
  assert (Hpend : pending s = []).
  { unfold pending, bulk_final in *.
    destruct (waiting (lim s)); [|done]. by destruct (active (lim s)). }
  rewrite Hpend in *. cbn in Hcnt. split.
  - unfold collect. rewrite Hpr.
    pose proof (omap_result_at [] items) as Hres. cbn [length app] in Hres.
    rewrite <- Hres. generalize (seq 0 n). intros l.
    induction l as [|i l IH]; [done|].
    rewrite fmap_cons.
    change (omap ?f (?a :: ?l))
      with (match f a with Some y => y :: omap f l | None => omap f l end).
    rewrite IH. cbn. by destruct (result_at task items i).
  - intros Hq. rewrite (Hcalls Hq). f_equal. lia.
Qed.

(** The batch under a valid concurrency bound: what it returns, what the
    progress callback saw, and that every item was fetched. *)
Lemma bulk_fetch_spec (z : Z) (sched : list action) :
  1 ≤ z →
  let r := bulk_fetch task failed onProgress items (Num z) sched in
  outcome r = Return (successes_from task 0 items)
  ∧ ((∀ i item, progress_calls (events (task i item)) = []) →
     progress_calls (events r) = calls n)
  ∧ (∀ i item ev, items !! i = Some item → ev ∈ events (task i item) → ev ∈ events r).
Proof.
  intros Hz. unfold bulk_fetch, pLimit. rewrite bool_decide_eq_true_2 by done.
  cbn zeta.
  destruct (bulk_run_inv (Z.to_nat z) sched) as [Hinv Hfin]; [lia|].
  destruct (final_collect _ _ Hinv Hfin) as [Hcol Hcalls].
  unfold outcome, events. cbn [fst snd]. rewrite Hcol. split; [done|]. split; [done|].
  intros i item ev Hi Hev. eapply (inv_events _ _ _ _ _ Hinv); [done| |done].
  assert (Hpend : pending
    (bulk_run task failed onProgress items sched
       {| concurrency := Z.to_nat z; waiting := []; active := [] |}) = []).
  { unfold pending, bulk_final in *.
    destruct (waiting _); [|done]. by destruct (active _). }
  rewrite Hpend. apply not_elem_of_nil.
Qed.
End BulkProps.

Section BulkReach.
Context {Item Res : Type}.
Variable task : nat -> Item -> io Res.
Variable failed : Item -> exn -> warning.
Variable onProgress : bool.
Variable items : list Item.

Local Abbreviation step := (bulk_step task failed onProgress items).
Local Abbreviation inv := (bulk_inv task onProgress items).
Local Abbreviation reach := (bulk_reachable task failed onProgress items).

Lemma reachable_inv (k : nat) (s : @bulk Res) :
  reach {| concurrency := k; waiting := []; active := [] |} s → inv k s.
Proof.
  unfold bulk_reachable. intros Hr.
  eapply (rtc_ind_r (λ s, inv k s)); [| |exact Hr].
  - apply bulk_init_inv.
  - intros s1 s2 _ [a Hstep] IH.
    by apply (step_inv task failed onProgress items k a s1 s2).
Qed.

Lemma sched_reachable (l : limiter) (sched : list action) :
  ∀ s : @bulk Res, reach l s → reach l (foldl (λ s a, default s (step a s)) s sched).
Proof.
  induction sched as [|a sched IH]; intros s Hs; [done|].
  cbn [foldl]. apply IH. destruct (step a s) as [s'|] eqn:Hstep; [|done].
  eapply rtc_r; [exact Hs|]. by exists a.
Qed.

Lemma drain_reachable (l : limiter) (fuel : nat) :
  ∀ s : @bulk Res, reach l s → reach l (drain task failed onProgress items fuel s).
Proof.
  induction fuel as [|fuel IH]; intros s Hs; [done|].
  cbn [drain]. destruct (next_action s) as [a|]; [|done].
  destruct (step a s) as [s'|] eqn:Hstep; [|done].
  apply IH. eapply rtc_r; [exact Hs|]. by exists a.
Qed.

Lemma bulk_run_reachable (l : limiter) (sched : list action) :
  reach l (bulk_run task failed onProgress items sched l).
Proof.
  unfold bulk_run. apply drain_reachable, sched_reachable. apply rtc_refl.
Qed.

(** What holds in every state that a batch under the bound [k] can reach:
    the bound, no call lost, no deadlock, and a measure that every step
    decreases. *)
Lemma reachable_bounded (k : nat) (s : @bulk Res) :
  (1 ≤ k)%nat → reach {| concurrency := k; waiting := []; active := [] |} s →
  (length (active (lim s)) ≤ k)%nat
  ∧ (completed s + length (active (lim s)) + length (waiting (lim s)))%nat = length items
  ∧ (bulk_final s = false → ∃ a s', step a s = Some s')
  ∧ (∀ a s', step a s = Some s' → steps_left s = S (steps_left s'))
  ∧ (steps_left s ≤ 2 * length items)%nat.
Proof.
  intros Hk Hs. pose proof (reachable_inv _ _ Hs) as Hinv.
  pose proof (inv_count _ _ _ _ _ Hinv) as Hcnt. unfold pending in Hcnt.
  rewrite length_app in Hcnt.
  split; [apply (inv_active _ _ _ _ _ Hinv)|].
  split; [lia|]. split.
  { intros Hfin.
    destruct (next_action_enabled task failed onProgress items _ s Hinv)
      as (a & s' & _ & Hstep); [lia|done|]. by exists a, s'. }
  split.
  { intros a s' Hstep.
    by destruct (step_inv task failed onProgress items _ a s s' Hinv Hstep). }
  unfold steps_left. lia.
Qed.

(** The run of a batch under the bound [k] ends with every item settled
    and the events of every item's fetch on record. *)
Lemma bulk_run_complete (k : nat) (sched : list action) :
  (1 ≤ k)%nat →
  reach {| concurrency := k; waiting := []; active := [] |}
    (bulk_run task failed onProgress items sched
       {| concurrency := k; waiting := []; active := [] |})
  ∧ bulk_final (bulk_run task failed onProgress items sched
                  {| concurrency := k; waiting := []; active := [] |}) = true
  ∧ completed (bulk_run task failed onProgress items sched
                 {| concurrency := k; waiting := []; active := [] |}) = length items
  ∧ (∀ i item ev, items !! i = Some item → ev ∈ events (task i item) →
       ev ∈ console (bulk_run task failed onProgress items sched
                       {| concurrency := k; waiting := []; active := [] |})).
Proof.
  intros Hk.
  destruct (bulk_run_inv task failed onProgress items k sched Hk) as [Hinv Hfin].
  set (s := bulk_run _ _ _ _ _ _) in *.
  assert (Hpend : pending s = []).
  { unfold pending, bulk_final in *.
    destruct (waiting (lim s)); [|done]. by destruct (active (lim s)). }
  split; [apply bulk_run_reachable|]. split; [done|]. split.
  - pose proof (inv_count _ _ _ _ _ Hinv) as Hcnt. rewrite Hpend in Hcnt.
    change (length (@nil nat)) with 0%nat in Hcnt. by rewrite Nat.add_0_r in Hcnt.
  - intros i item ev Hi Hev. eapply (inv_events _ _ _ _ _ Hinv); [done| |done].
    rewrite Hpend. apply not_elem_of_nil.
Qed.

End BulkReach.

Lemma bulk_run_nil {Item Res} (task : nat → Item → io Res)
    (failed : Item → exn → warning) (onProgress : bool) (k : nat)
    (sched : list action) :
  bulk_run task failed onProgress [] sched
    {| concurrency := k; waiting := []; active := [] |}
  = bulk_init (Item := Item) (Res := Res) []
      {| concurrency := k; waiting := []; active := [] |}.
Proof.
  unfold bulk_run.
  set (s0 := bulk_init (Item := Item) (Res := Res) []
               {| concurrency := k; waiting := []; active := [] |}).
  assert (Hfold : foldl (λ s a, default s (bulk_step task failed onProgress [] a s))
                    s0 sched = s0).
  { induction sched as [|a sched IH]; [done|]. cbn [foldl].
    replace (bulk_step task failed onProgress [] a s0)
      with (@None (@bulk Res)) by (by destruct a).
    exact IH. }
  by rewrite Hfold.
Qed.

(** The part of a bulk fetcher after the query, under a valid bound, is
    the run of the batch: what the batch has written, and the resolved
    promises without the nulls. *)
Lemma bulk_or_empty_run {Item Res} (task : nat → Item → io Res)
    (failed : Item → exn → warning) (onProgress : bool) (items : list Item)
    (z : Z) (sched : list action) :
  1 ≤ z →
  (if bool_decide (length items = 0%nat) then mret []
   else bulk_fetch task failed onProgress items (Num z) sched)
  = (console (bulk_run task failed onProgress items sched
                {| concurrency := Z.to_nat z; waiting := []; active := [] |}),
     Return (collect (bulk_run task failed onProgress items sched
                        {| concurrency := Z.to_nat z; waiting := []; active := [] |}))).
Proof.
  intros Hz. case_bool_decide as Hlen.
  - destruct items; [|done]. by rewrite bulk_run_nil.
  - unfold bulk_fetch, pLimit. by rewrite bool_decide_eq_true_2.
Qed.

(** ** Bulk fetchers *)

Lemma outcome_bind {A B} (m : io A) (f : A → io B) :
  outcome (m ≫= f)
  = match outcome m with
    | Return a => outcome (f a)
    | Throw e => Throw e
    end.
Proof.
  destruct m as [evs [a|e]]; cbn; [|done]. by destruct (f a).
Qed.

Lemma events_bind {A B} (m : io A) (f : A → io B) :
  events (m ≫= f)
  = events m ++ match outcome m with
                | Return a => events (f a)
                | Throw _ => []
                end.
Proof.
  destruct m as [evs [a|e]]; cbn; [|by rewrite app_nil_r]. by destruct (f a).
Qed.

Lemma bind_returned {A B} (m : io A) (f : A → io B) (a : A) :
  outcome m = Return a →
  m ≫= f = (events m ++ events (f a), outcome (f a)).
Proof.
  destruct m as [evs [a'|e]]; cbn; [|done]. intros [= ->]. by destruct (f a).
Qed.

Lemma quiet_bind {A B} (m : io A) (f : A → io B) :
  quiet m → (∀ a, quiet (f a)) → quiet (m ≫= f).
Proof.
  unfold quiet. intros Hm Hf. rewrite events_bind, progress_calls_app, Hm.
  destruct (outcome m); [apply Hf|done].
Qed.

Section BulkFetcherProps.
Context `{JsRuntime}.

Lemma apiRequest_quiet {T} (c : Config) (req : request) (answer : http T) :
  quiet (apiRequest c req answer).
Proof.
  unfold apiRequest. destruct (getApiKey c); [|done].
  by destruct answer.
Qed.

Lemma fetchFeedback_quiet (c : Config) (net : Remote) (runId : string) :
  quiet (fetchFeedback c net runId).
Proof.
  unfold fetchFeedback. destruct (getApiKey c); [|done].
  destruct (remote_feedback net runId) as [| | |[]]; done.
Qed.

Lemma fetchTrace_quiet (c : Config) (net : Remote) (traceId : string)
    (options : option TraceOptions) :
  quiet (fetchTrace c net traceId options).
Proof.
  unfold fetchTrace. apply quiet_bind; [apply apiRequest_quiet|].
  intros run. destruct (_ || _); [|done].
  destruct (_ && _); [|done].
  apply quiet_bind; [apply fetchFeedback_quiet|done].
Qed.

Lemma traceTask_quiet (w : World) (im ifb : bool) (i : nat) (run : RawRun) :
  quiet (traceTask w im ifb i run).
Proof.
  unfold traceTask. apply quiet_bind; [apply fetchTrace_quiet|].
  intros trace. by destruct (_ && _).
Qed.

Lemma threadTask_quiet (w : World) (p : string) (i : nat) (threadId : jsval) :
  quiet (threadTask w p i threadId).
Proof.
  unfold threadTask, fetchThread. apply quiet_bind; [apply apiRequest_quiet|done].
Qed.

(** The bulk fetchers once the query has answered. *)
Lemma fetchTraces_after_query (w : World) (opts : FetchTracesOptions)
    (sched : list action) (body : QueryBody) :
  tracesBody w opts = Return body →
  fetchTraces w opts sched
  = (runsQuery w body ≫= λ data,
      let runs := default [] (runs data) in
      if bool_decide (length runs = 0%nat) then mret []
      else bulk_fetch
             (traceTask w (default false (ft_includeMetadata opts))
                (default false (ft_includeFeedback opts)))
             traceFailed (ft_onProgress opts) runs
             (default (Num 5) (ft_maxConcurrent opts)) sched).
Proof. intros Hb. unfold fetchTraces. by rewrite Hb. Qed.

Lemma fetchThreads_after_query (w : World) (opts : FetchThreadsOptions)
    (sched : list action) (body : QueryBody) :
  threadsBody w opts = Return body →
  fetchThreads w opts sched
  = (runsQuery w body ≫= λ data,
      let threadIds :=
        selectThreadIds (default (Num 10) (fth_limit opts)) (default [] (runs data)) in
      if bool_decide (length threadIds = 0%nat) then mret []
      else bulk_fetch (threadTask w (fth_projectUuid opts)) ThreadFailed
             (fth_onProgress opts) threadIds
             (default (Num 5) (fth_maxConcurrent opts)) sched).
Proof. intros Hb. unfold fetchThreads. by rewrite Hb. Qed.

Lemma bulk_or_empty_outcome {Item Res} (task : nat → Item → io Res)
    (failed : Item → exn → warning) (onProgress : bool) (items : list Item)
    (z : Z) (sched : list action) :
  1 ≤ z →
  outcome (if bool_decide (length items = 0%nat) then mret []
           else bulk_fetch task failed onProgress items (Num z) sched)
  = Return (successes_from task 0 items).
Proof.
  intros Hz. case_bool_decide as Hlen.
  - by destruct items.
  - by destruct (bulk_fetch_spec task failed onProgress items z sched Hz) as [-> _].
Qed.

Lemma bulk_or_empty_calls {Item Res} (task : nat → Item → io Res)
    (failed : Item → exn → warning) (onProgress : bool) (items : list Item)
    (z : Z) (sched : list action) :
  1 ≤ z → (∀ i item, quiet (task i item)) →
  progress_calls
    (events (if bool_decide (length items = 0%nat) then mret []
             else bulk_fetch task failed onProgress items (Num z) sched))
  = expected_calls onProgress items (length items).
Proof.
  intros Hz Hq. case_bool_decide as Hlen.
  - destruct items; [|done]. unfold expected_calls. by destruct onProgress.
  - destruct (bulk_fetch_spec task failed onProgress items z sched Hz) as (_ & Hc & _).
    by apply Hc.
Qed.

(** C1. Once the query has answered, a bulk fetch under a valid
    concurrency bound returns, whatever the interleaving and whichever
    items fail: its result is the list of the results of the single-item
    fetches that succeed, in the order of the item list (the runs of the
    query for fetchTraces, the deduplicated thread ids for fetchThreads),
    the failed items being left out. *)
Theorem bulk_fetch_results_in_order :
  (∀ (w : World) (opts : FetchTracesOptions) (sched : list action)
     (body : QueryBody) (data : RunsQueryResponse) (k : Z),
     tracesBody w opts = Return body →
     outcome (runsQuery w body) = Return data →
     default (Num 5) (ft_maxConcurrent opts) = Num k → 1 ≤ k →
     outcome (fetchTraces w opts sched)
     = Return (successes_from
                 (traceTask w (default false (ft_includeMetadata opts))
                    (default false (ft_includeFeedback opts)))
                 0 (default [] (runs data))))
  ∧ (∀ (w : World) (opts : FetchThreadsOptions) (sched : list action)
       (body : QueryBody) (data : RunsQueryResponse) (k : Z),
       threadsBody w opts = Return body →
       outcome (runsQuery w body) = Return data →
       default (Num 5) (fth_maxConcurrent opts) = Num k → 1 ≤ k →
       outcome (fetchThreads w opts sched)
       = Return (successes_from (threadTask w (fth_projectUuid opts)) 0
                   (selectThreadIds (default (Num 10) (fth_limit opts))
                      (default [] (runs data))))).
Proof.
  split; intros w opts sched body data k Hbody Hq Hk Hk1.
  - rewrite (fetchTraces_after_query _ _ _ _ Hbody), outcome_bind, Hq, Hk. cbn zeta.
    by apply bulk_or_empty_outcome.
  - rewrite (fetchThreads_after_query _ _ _ _ Hbody), outcome_bind, Hq, Hk. cbn zeta.
    by apply bulk_or_empty_outcome.
Qed.

(** C2. Once the query has answered, a bulk fetch of [n] items that was
    given a progress callback calls it, over the whole batch and whatever
    the interleaving and the failures, with exactly the arguments
    [(1, n)], [(2, n)], ..., [(n, n)] in this order: [n] calls, a
    completed count that takes each value from 1 to [n] once, increasing,
    and a total that is always [n]. *)
Theorem progress_callback_counts :
  (∀ (w : World) (opts : FetchTracesOptions) (sched : list action)
     (body : QueryBody) (data : RunsQueryResponse) (k : Z),
     tracesBody w opts = Return body →
     outcome (runsQuery w body) = Return data →
     default (Num 5) (ft_maxConcurrent opts) = Num k → 1 ≤ k →
     ft_onProgress opts = true →
     let n := length (default [] (runs data)) in
     progress_calls (events (fetchTraces w opts sched))
     = (λ c, (c, n)) <$> seq 1 n)
  ∧ (∀ (w : World) (opts : FetchThreadsOptions) (sched : list action)
       (body : QueryBody) (data : RunsQueryResponse) (k : Z),
       threadsBody w opts = Return body →
       outcome (runsQuery w body) = Return data →
       default (Num 5) (fth_maxConcurrent opts) = Num k → 1 ≤ k →
       fth_onProgress opts = true →
       let n := length (selectThreadIds (default (Num 10) (fth_limit opts))
                          (default [] (runs data))) in
       progress_calls (events (fetchThreads w opts sched))
       = (λ c, (c, n)) <$> seq 1 n).
Proof.
  split; intros w opts sched body data k Hbody Hq Hk Hk1 Hcb n.
  - rewrite (fetchTraces_after_query _ _ _ _ Hbody), events_bind, Hq, Hk. cbn zeta.
    rewrite progress_calls_app, (apiRequest_quiet _ _ _ : quiet (runsQuery w body)).
    rewrite bulk_or_empty_calls by (done || apply traceTask_quiet).
    unfold expected_calls. by rewrite Hcb.
  - rewrite (fetchThreads_after_query _ _ _ _ Hbody), events_bind, Hq, Hk. cbn zeta.
    rewrite progress_calls_app, (apiRequest_quiet _ _ _ : quiet (runsQuery w body)).
    rewrite bulk_or_empty_calls by (done || apply threadTask_quiet).
    unfold expected_calls. by rewrite Hcb.
Qed.

(** C3. For fetchTraces and fetchThreads under [maxConcurrent = k >= 1],
    once the query has answered with [n] items (the runs, or the
    deduplicated thread ids): the batch starts with all [n] calls queued
    and none in flight; in every state it can reach, whatever the
    interleaving, at most [k] single-item fetches are in flight, every
    item is settled, in flight or queued, a batch that is not over can
    take a step, every step brings the end nearer and at most two steps
    per item are left; and under every interleaving the call is the run
    of this batch to a state with nothing queued or in flight, all [n]
    items settled and the events of every item's fetch on record. This
    holds for every [n], so also when [k] is 1 or exceeds [n]. *)
Theorem concurrency_bound_and_progress :
  (∀ (w : World) (opts : FetchTracesOptions) (body : QueryBody)
     (data : RunsQueryResponse) (k : Z),
     tracesBody w opts = Return body →
     outcome (runsQuery w body) = Return data →
     default (Num 5) (ft_maxConcurrent opts) = Num k → 1 ≤ k →
     let task := traceTask w (default false (ft_includeMetadata opts))
                   (default false (ft_includeFeedback opts)) in
     let cb := ft_onProgress opts in
     let items := default [] (runs data) in
     ∃ l, pLimit (Num k) = Return l
       ∧ waiting (lim (bulk_init (Res := TraceData) items l)) = seq 0 (length items)
       ∧ active (lim (bulk_init (Res := TraceData) items l)) = []
       ∧ (∀ s, bulk_reachable task traceFailed cb items l s →
            (length (active (lim s)) ≤ Z.to_nat k)%nat
            ∧ (completed s + length (active (lim s)) + length (waiting (lim s)))%nat
              = length items
            ∧ (bulk_final s = false →
               ∃ a s', bulk_step task traceFailed cb items a s = Some s')
            ∧ (∀ a s', bulk_step task traceFailed cb items a s = Some s' →
                 steps_left s = S (steps_left s'))
            ∧ (steps_left s ≤ 2 * length items)%nat)
       ∧ (∀ sched : list action,
            fetchTraces w opts sched
            = (events (runsQuery w body)
                 ++ console (bulk_run task traceFailed cb items sched l),
               Return (collect (bulk_run task traceFailed cb items sched l)))
            ∧ bulk_reachable task traceFailed cb items l
                (bulk_run task traceFailed cb items sched l)
            ∧ bulk_final (bulk_run task traceFailed cb items sched l) = true
            ∧ completed (bulk_run task traceFailed cb items sched l) = length items
            ∧ (∀ i item ev, items !! i = Some item → ev ∈ events (task i item) →
                 ev ∈ events (fetchTraces w opts sched))))
  ∧ (∀ (w : World) (opts : FetchThreadsOptions) (body : QueryBody)
       (data : RunsQueryResponse) (k : Z),
       threadsBody w opts = Return body →
       outcome (runsQuery w body) = Return data →
       default (Num 5) (fth_maxConcurrent opts) = Num k → 1 ≤ k →
       let task := threadTask w (fth_projectUuid opts) in
       let cb := fth_onProgress opts in
       let items := selectThreadIds (default (Num 10) (fth_limit opts))
                      (default [] (runs data)) in
       ∃ l, pLimit (Num k) = Return l
         ∧ waiting (lim (bulk_init (Res := ThreadData) items l)) = seq 0 (length items)
         ∧ active (lim (bulk_init (Res := ThreadData) items l)) = []
         ∧ (∀ s, bulk_reachable task ThreadFailed cb items l s →
              (length (active (lim s)) ≤ Z.to_nat k)%nat
              ∧ (completed s + length (active (lim s)) + length (waiting (lim s)))%nat
                = length items
              ∧ (bulk_final s = false →
                 ∃ a s', bulk_step task ThreadFailed cb items a s = Some s')
              ∧ (∀ a s', bulk_step task ThreadFailed cb items a s = Some s' →
                   steps_left s = S (steps_left s'))
              ∧ (steps_left s ≤ 2 * length items)%nat)
         ∧ (∀ sched : list action,
              fetchThreads w opts sched
              = (events (runsQuery w body)
                   ++ console (bulk_run task ThreadFailed cb items sched l),
                 Return (collect (bulk_run task ThreadFailed cb items sched l)))
              ∧ bulk_reachable task ThreadFailed cb items l
                  (bulk_run task ThreadFailed cb items sched l)
              ∧ bulk_final (bulk_run task ThreadFailed cb items sched l) = true
              ∧ completed (bulk_run task ThreadFailed cb items sched l) = length items
              ∧ (∀ i item ev, items !! i = Some item → ev ∈ events (task i item) →
                   ev ∈ events (fetchThreads w opts sched)))).
Proof.
  split; intros w opts body data k Hbody Hq Hk Hk1 task cb items;
    exists {| concurrency := Z.to_nat k; waiting := []; active := [] |}.
  - split; [unfold pLimit; by rewrite bool_decide_eq_true_2|].
    unfold bulk_init at 1 2. rewrite foldl_lim_submit. split; [done|]. split; [done|].
    split; [intros s Hs; apply (reachable_bounded task traceFailed cb items); [lia|done]|].
    intros sched.
    destruct (bulk_run_complete task traceFailed cb items (Z.to_nat k) sched)
      as (Hr & Hf & Hc & Hev); [lia|].
    assert (Heq : fetchTraces w opts sched
      = (events (runsQuery w body)
           ++ console (bulk_run task traceFailed cb items sched
                         {| concurrency := Z.to_nat k; waiting := []; active := [] |}),
         Return (collect (bulk_run task traceFailed cb items sched
                            {| concurrency := Z.to_nat k; waiting := []; active := [] |})))).
    { rewrite (fetchTraces_after_query _ _ _ _ Hbody), (bind_returned _ _ _ Hq), Hk.
      cbv zeta. by rewrite bulk_or_empty_run. }
    split; [done|]. split; [done|]. split; [done|]. split; [done|].
    intros i item ev Hi Hin. rewrite Heq. apply elem_of_app. right. by eapply Hev.
  - split; [unfold pLimit; by rewrite bool_decide_eq_true_2|].
    unfold bulk_init at 1 2. rewrite foldl_lim_submit. split; [done|]. split; [done|].
    split; [intros s Hs; apply (reachable_bounded task ThreadFailed cb items); [lia|done]|].
    intros sched.
    destruct (bulk_run_complete task ThreadFailed cb items (Z.to_nat k) sched)
      as (Hr & Hf & Hc & Hev); [lia|].
    assert (Heq : fetchThreads w opts sched
      = (events (runsQuery w body)
           ++ console (bulk_run task ThreadFailed cb items sched
                         {| concurrency := Z.to_nat k; waiting := []; active := [] |}),
         Return (collect (bulk_run task ThreadFailed cb items sched
                            {| concurrency := Z.to_nat k; waiting := []; active := [] |})))).
    { rewrite (fetchThreads_after_query _ _ _ _ Hbody), (bind_returned _ _ _ Hq), Hk.
      cbv zeta. by rewrite bulk_or_empty_run. }
    split; [done|]. split; [done|]. split; [done|]. split; [done|].
    intros i item ev Hi Hin. rewrite Heq. apply elem_of_app. right. by eapply Hev.
Qed.

End BulkFetcherProps.

Lemma bulk_fetch_results_in_order_witness :
  outcome (fetchTraces (H := sampleRuntime) sampleWorld sampleTracesOptions
             [Start; Start; Settle 1; Start; Settle 2; Settle 0])
  = Return [ {| trace_id := "A"; trace_messages := [];
                trace_metadata := None; trace_feedback := None |};
             {| trace_id := "C"; trace_messages := [];
                trace_metadata := None; trace_feedback := None |} ]
  ∧ outcome (fetchThreads (H := sampleRuntime) sampleWorld (sampleThreadsOptions 2) [Start; Start; Settle 1])
    = Return [ @Build_ThreadData sampleRuntime (JString "a") [msgHello; msgHi] ].
Proof.
  destruct (bulk_fetch_results_in_order (H := sampleRuntime)) as [Htraces Hthreads].
  split.
  - erewrite Htraces; [| reflexivity | reflexivity | reflexivity | lia].
    reflexivity.
  - erewrite Hthreads; [| reflexivity | reflexivity | reflexivity | lia].
    reflexivity.
Defined.

Lemma progress_callback_counts_witness :
  progress_calls (events (fetchTraces (H := sampleRuntime) sampleWorld sampleTracesOptions
                            [Start; Start; Settle 1; Start; Settle 2; Settle 0]))
  = [(1, 3); (2, 3); (3, 3)]%nat
  ∧ progress_calls (events (fetchThreads (H := sampleRuntime) sampleWorld (sampleThreadsOptions 2)
                              [Start; Start; Settle 1]))
    = [(1, 2); (2, 2)]%nat.
Proof.
  destruct (progress_callback_counts (H := sampleRuntime)) as [Htraces Hthreads].
  split.
  - erewrite Htraces; [| reflexivity | reflexivity | reflexivity | lia | reflexivity].
    reflexivity.
  - erewrite Hthreads; [| reflexivity | reflexivity | reflexivity | lia | reflexivity].
    reflexivity.
Defined.

Lemma concurrency_bound_and_progress_witness :
  (length (active (lim twoInFlight)) ≤ Z.to_nat 2)%nat
  ∧ (completed twoInFlight + length (active (lim twoInFlight))
     + length (waiting (lim twoInFlight)))%nat = 3%nat
  ∧ (∃ a s', bulk_step (traceTask (H := sampleRuntime) sampleWorld false false)
               traceFailed true sampleTraceRuns a twoInFlight = Some s')
  ∧ completed (bulk_run (traceTask (H := sampleRuntime) sampleWorld false false)
                 traceFailed true sampleTraceRuns [Start; Start; Start; Settle 1]
                 {| concurrency := 2; waiting := []; active := [] |}) = 3%nat.
Proof.
  destruct (proj1 (concurrency_bound_and_progress (H := sampleRuntime))
              sampleWorld sampleTracesOptions _ {| runs := Some sampleTraceRuns |} 2
              eq_refl eq_refl eq_refl ltac:(lia))
    as (l & Hl & _ & _ & Hall & Hrun).
  injection Hl as <-.
  destruct (Hall twoInFlight) as (Hb & Hc & Hstep & _).
  { eapply rtc_l; [by exists Start|]. eapply rtc_l; [by exists Start|]. apply rtc_refl. }
  split; [exact Hb|]. split; [exact Hc|]. split; [by apply Hstep|].
  apply (Hrun [Start; Start; Start; Settle 1%nat]).
Defined.

(** ** Thread-id deduplicator: the claims *)

Section DeduplicatorClaims.
Context `{JsRuntime}.

Lemma selectThreadIds_length (limit : Z) (runs : list RawRun) :
  (length (selectThreadIds (Num limit) runs) ≤ cap limit)%nat.
Proof. rewrite selectThreadIds_spec, length_take. lia. Qed.

Lemma selectThreadIds_stops (limit : Z) (runs more : list RawRun) :
  (cap limit ≤ length (selectThreadIds (Num limit) runs))%nat →
  selectThreadIds (Num limit) (runs ++ more) = selectThreadIds (Num limit) runs.
Proof.
  rewrite !selectThreadIds_spec. unfold candidateIds.
  rewrite omap_app, dedupFirst_app, length_take. intros Hlen.
  apply take_app_le. lia.
Qed.

(** C6. The deduplicator takes from each run the value of [thread_id] in
    its custom metadata, or of [session_id] when [thread_id] is absent
    (or null), and keeps the values that are truthy. For every run list
    and every integer limit its result is the list of the distinct ids at
    the place of their first occurrence, cut after the cap (the limit, or
    one id when the limit is below one): each id occurs once, and once
    the result has reached the limit the runs that follow are not looked
    at. *)
Theorem selectThreadIds_first_seen_capped (runs : list RawRun) (limit : Z) :
  (∀ (run : RawRun) (v : jsval),
     customMetadataOf run !! "thread_id" = Some v → v ≠ JNull →
     threadIdOf run = Some v)
  ∧ (∀ run : RawRun,
       customMetadataOf run !! "thread_id" = None →
       threadIdOf run = customMetadataOf run !! "session_id")
  ∧ selectThreadIds (Num limit) runs
    = take (cap limit) (dedupFirst (candidateIds runs))
  ∧ NoDup (selectThreadIds (Num limit) runs)
  ∧ (1 ≤ limit → Z.of_nat (length (selectThreadIds (Num limit) runs)) ≤ limit)
  ∧ (∀ more : list RawRun,
       1 ≤ limit →
       Z.of_nat (length (selectThreadIds (Num limit) runs)) = limit →
       selectThreadIds (Num limit) (runs ++ more) = selectThreadIds (Num limit) runs).
Proof.
  split; [|split; [|split; [|split; [|split]]]].
  - intros run v Hv Hnull. unfold threadIdOf. rewrite Hv. by destruct v.
  - intros run Hnone. unfold threadIdOf. by rewrite Hnone.
  - apply selectThreadIds_spec.
  - rewrite selectThreadIds_spec.
    eapply (sublist_NoDup _ (dedupFirst (candidateIds runs)));
      first [apply sublist_take | apply dedupFirst_NoDup].
  - intros Hl. pose proof (selectThreadIds_length limit runs). unfold cap in *. lia.
  - intros more Hl Hlen. apply selectThreadIds_stops. unfold cap. lia.
Qed.

(** C10. The cap is tested only after an id has been inserted: the
    number of selected ids is at most the maximum of the limit and one;
    with a limit of 0 and a run list in which some run carries an id, the
    first such id is selected, and fetchThreads goes on to request that
    thread. *)
Theorem selectThreadIds_cap_after_insert :
  (∀ (runs : list RawRun) (limit : Z),
     Z.of_nat (length (selectThreadIds (Num limit) runs)) ≤ Z.max limit 1)
  ∧ (∀ (runs : list RawRun) (id : jsval) (rest : list jsval),
       candidateIds runs = id :: rest →
       selectThreadIds (Num 0) runs = [id])
  ∧ (∀ (w : World) (opts : FetchThreadsOptions) (sched : list action)
       (body : QueryBody) (data : RunsQueryResponse) (k : Z)
       (id : jsval) (rest : list jsval),
       threadsBody w opts = Return body →
       outcome (runsQuery w body) = Return data →
       default (Num 5) (fth_maxConcurrent opts) = Num k → 1 ≤ k →
       fth_limit opts = Some (Num 0) →
       candidateIds (default [] (runs data)) = id :: rest →
       Fetch (GetThread id (fth_projectUuid opts)) ∈ events (fetchThreads w opts sched)).
Proof.
  split; [|split].
  - intros runs limit. pose proof (selectThreadIds_length limit runs).
    unfold cap in *. lia.
  - intros runs id rest Hc. rewrite selectThreadIds_spec, Hc. reflexivity.
  - intros w opts sched body data k id rest Hbody Hq Hk Hk1 Hlimit Hc.
    rewrite (fetchThreads_after_query _ _ _ _ Hbody), events_bind, Hq, Hk, Hlimit.
    cbv zeta. change (default (Num 10) (Some (Num 0))) with (Num 0).
    rewrite selectThreadIds_spec, Hc.
    change (take (cap 0) (dedupFirst (id :: rest))) with [id].
    cbn [length bool_decide]. rewrite bool_decide_eq_false_2 by done.
    apply elem_of_app. right.
    destruct (bulk_fetch_spec (threadTask w (fth_projectUuid opts)) ThreadFailed
                (fth_onProgress opts) [id] k sched Hk1) as (_ & _ & Hev).
    apply (Hev 0%nat id); [done|].
    unfold threadTask, fetchThread. rewrite events_bind.
    apply elem_of_app. left.
    unfold runsQuery, apiRequest in Hq. unfold apiRequest.
    destruct (getApiKey (cfg w)); [|done].
    rewrite events_bind. apply elem_of_app. left. cbn. apply elem_of_cons. by left.
Qed.

End DeduplicatorClaims.

Lemma selectThreadIds_first_seen_capped_witness :
  selectThreadIds (Num 2) (sampleThreadRuns ++ [threadRun "5" "c"])
  = [JString "a"; JString "b"]
  ∧ threadIdOf (sessionRun (H := sampleRuntime) "3" "b") = Some (JString "b").
Proof.
  destruct (selectThreadIds_first_seen_capped (H := sampleRuntime) sampleThreadRuns 2)
    as (_ & Hfallback & _ & _ & _ & Hstop).
  split.
  - rewrite (Hstop [threadRun "5" "c"]); [| lia | reflexivity].
    reflexivity.
  - rewrite (Hfallback (sessionRun "3" "b")); reflexivity.
Defined.

Lemma selectThreadIds_cap_after_insert_witness :
  selectThreadIds (Num 0)
    [emptyRun (H := sampleRuntime) "0"; threadRun "1" "a"; threadRun "2" "b"]
  = [JString "a"]
  ∧ Fetch (GetThread (JString "a") "proj")
    ∈ events (fetchThreads (H := sampleRuntime) sampleWorld (sampleThreadsOptions 0) []).
Proof.
  destruct (selectThreadIds_cap_after_insert (H := sampleRuntime)) as (_ & Hone & Hfetch).
  split.
  - apply (Hone _ (JString "a") [JString "b"]). reflexivity.
  - eapply (Hfetch sampleWorld (sampleThreadsOptions 0) [] _ _ 5 (JString "a"));
      [reflexivity | reflexivity | reflexivity | lia | reflexivity | reflexivity].
Defined.

(** ** Metadata extractor *)

Section MetadataProps.
Context `{JsRuntime}.

Lemma duration_both_parse (run : RawRun) (s e : string) (a b : Z) :
  run_start_time run = Some s → run_end_time run = Some e →
  s ≠ EmptyString → e ≠ EmptyString →
  Date_parse s = Num a → Date_parse e = Num b →
  duration_ms (extractRunMetadata run) = Some (Num (b - a)).
Proof.
  intros Hs He Hs0 He0 Ha Hb. cbn. unfold durationOf. rewrite Hs, He. cbn.
  destruct s; [done|]. destruct e; [done|]. cbn. by rewrite Ha, Hb.
Qed.

Lemma duration_missing (run : RawRun) :
  truthy_ostr (run_start_time run) = false ∨ truthy_ostr (run_end_time run) = false →
  duration_ms (extractRunMetadata run) = None.
Proof.
  intros Hm. cbn. unfold durationOf.
  destruct Hm as [-> | ->]; [done|]. by rewrite andb_false_r.
Qed.

(** C5, at the input where the code departs from it. When both timestamps
    are present and one of them does not parse, [duration_ms] is NaN:
    [new Date] does not throw, the [catch] of lines 65-67 is never
    entered, and the subtraction is made on an Invalid Date. *)
Theorem duration_unparsable_is_NaN (run : RawRun) (s e : string) :
  run_start_time run = Some s → run_end_time run = Some e →
  s ≠ EmptyString → e ≠ EmptyString →
  Date_parse s = NaN ∨ Date_parse e = NaN →
  duration_ms (extractRunMetadata run) = Some NaN
  ∧ duration_ms (extractRunMetadata run) ≠ None.
Proof.
  intros Hs He Hs0 He0 Hnan. cbn. unfold durationOf. rewrite Hs, He. cbn.
  destruct s; [done|]. destruct e; [done|]. cbn.
  split; [|done]. f_equal.
  destruct Hnan as [-> | ->]; [by destruct (Date_parse _)|done].
Qed.

End MetadataProps.

Lemma duration_unparsable_is_NaN_witness :
  duration_ms
    (extractRunMetadata (H := sampleRuntime)
       (timedRun "r" (Some "not-a-date") (Some "2025-01-01T00:00:01Z")))
  = Some NaN.
Proof.
  apply (duration_unparsable_is_NaN (H := sampleRuntime)
           (timedRun "r" (Some "not-a-date") (Some "2025-01-01T00:00:01Z"))
           "not-a-date" "2025-01-01T00:00:01Z");
    [reflexivity | reflexivity | done | done | left; reflexivity].
Defined.

(** ** Single-item fetcher *)

Section FetchTraceProps.
Context `{JsRuntime}.

(** C8 as amended. A trace that fetchTrace returns has its metadata and
    its feedback both present when the caller requested metadata or
    feedback, and both absent when the caller requested neither; a
    feedback that is present and empty is not an absent one. *)
Theorem fetchTrace_fields_present (c : Config) (net : Remote) (traceId : string)
    (options : option TraceOptions) (trace : TraceData) :
  outcome (fetchTrace c net traceId options) = Return trace →
  (is_Some (trace_metadata trace)
     ↔ wantsMetadata options || wantsFeedback options = true)
  ∧ (is_Some (trace_feedback trace)
       ↔ wantsMetadata options || wantsFeedback options = true)
  ∧ (wantsMetadata options = false → wantsFeedback options = false →
     trace_metadata trace = None ∧ trace_feedback trace = None)
  ∧ (wantsMetadata options = true → wantsFeedback options = false →
     trace_feedback trace = Some []).
Proof.
  unfold fetchTrace, wantsMetadata, wantsFeedback.
  rewrite outcome_bind.
  destruct (outcome (apiRequest c (GetRun traceId) (remote_run net traceId)))
    as [run|e]; [|done].
  destruct (default false (options ≫= opt_includeMetadata)),
           (default false (options ≫= opt_includeFeedback)); cbn [orb andb].
  - destruct (hasFeedback (extractRunMetadata run)).
    + rewrite outcome_bind. destruct (outcome (fetchFeedback c net traceId)); [|done].
      cbn. intros [= <-]. cbn. by repeat split; try done; intros _; eexists.
    + cbn. intros [= <-]. cbn. by repeat split; try done; intros _; eexists.
  - cbn. intros [= <-]. cbn. by repeat split; try done; intros _; eexists.
  - destruct (hasFeedback (extractRunMetadata run)).
    + rewrite outcome_bind. destruct (outcome (fetchFeedback c net traceId)); [|done].
      cbn. intros [= <-]. cbn. by repeat split; try done; intros _; eexists.
    + cbn. intros [= <-]. cbn. by repeat split; try done; intros _; eexists.
  - cbn. intros [= <-]. cbn.
    repeat split; try done; by intros [? [=]].
Qed.

End FetchTraceProps.

Lemma fetchTrace_fields_present_witness :
  ∃ trace : @TraceData sampleRuntime,
    outcome (fetchTrace (cfg sampleWorld) sampleRemote "A" metadataOnly) = Return trace
    ∧ is_Some (trace_metadata trace)
    ∧ trace_feedback trace = Some [].
Proof.
  eexists. split; [reflexivity|].
  destruct (fetchTrace_fields_present (H := sampleRuntime) (cfg sampleWorld)
              sampleRemote "A" metadataOnly _ eq_refl) as (Hm & _ & _ & Hempty).
  split.
  - apply Hm. reflexivity.
  - apply Hempty; reflexivity.
Defined.

(** C8 as stated fails: a caller that requests the metadata only gets a
    feedback field as well, though it did not request feedback. *)
Lemma fetchTrace_feedback_not_requested :
  ¬ present_iff_requested (H := sampleRuntime) (cfg sampleWorld) sampleRemote "A"
      metadataOnly.
Proof.
  intros Hclaim.
  destruct (Hclaim _ eq_refl) as [_ Hfb].
  assert (Hreq : wantsFeedback metadataOnly = true).
  { apply Hfb. by eexists. }
  discriminate Hreq.
Qed.

(** ** Feedback lookup *)

Section FeedbackProps.
Context `{JsRuntime}.

(** The feedback request is made only for a caller that asked for
    feedback, on a run whose metadata shows a positive feedback count. *)
Lemma fetchTrace_feedback_gate (c : Config) (net : Remote) (traceId : string)
    (options : option TraceOptions) (runId : string) :
  Fetch (GetFeedback runId) ∈ events (fetchTrace c net traceId options) →
  wantsFeedback options = true
  ∧ ∃ run, outcome (apiRequest c (GetRun traceId) (remote_run net traceId)) = Return run
           ∧ hasFeedback (extractRunMetadata run) = true.
Proof.
  unfold fetchTrace, wantsFeedback. rewrite events_bind.
  intros [Hin|Hin]%elem_of_app.
  { exfalso. unfold apiRequest in Hin. destruct (getApiKey c); [|by inversion Hin].
    destruct (remote_run net traceId); cbn in Hin;
      apply list_elem_of_singleton in Hin; discriminate. }
  destruct (outcome (apiRequest c (GetRun traceId) (remote_run net traceId)))
    as [run|e]; [|by inversion Hin].
  destruct (default false (options ≫= opt_includeFeedback)); last first.
  { rewrite andb_false_l in Hin. destruct (_ || _); by inversion Hin. }
  rewrite orb_true_r, andb_true_l in Hin.
  destruct (hasFeedback (extractRunMetadata run)) eqn:Hhas; [|by inversion Hin].
  split; [done|]. by exists run.
Qed.

(** A feedback request answered with a status that is not a success: the
    failure is written to the console and the feedback is empty. *)
Lemma fetchFeedback_not_ok (c : Config) (net : Remote) (runId key text : string)
    (st : Z) :
  getApiKey c = Return key → remote_feedback net runId = NotOk st text →
  fetchFeedback c net runId
  = ([Fetch (GetFeedback runId); ConsoleError (FeedbackFailed runId st)], Return []).
Proof. intros Hk Hr. unfold fetchFeedback. by rewrite Hk, Hr. Qed.

(** C9, at the input where the code departs from it. The caller asked
    for feedback, the run shows a positive feedback count, and the
    feedback request is rejected (a network failure) or answered with a
    body that does not decode: [fetchFeedback] has no [catch], so the
    failure is the outcome of fetchTrace, with no warning written. *)
Theorem fetchTrace_feedback_failure_propagates (c : Config) (net : Remote)
    (traceId key : string) (options : option TraceOptions) (run : RawRun) :
  wantsFeedback options = true →
  getApiKey c = Return key →
  remote_run net traceId = Ok200 run →
  hasFeedback (extractRunMetadata run) = true →
  (remote_feedback net traceId = FetchRejected →
   fetchTrace c net traceId options
   = ([Fetch (GetRun traceId); Fetch (GetFeedback traceId)], Throw NetworkError))
  ∧ (remote_feedback net traceId = JsonRejected →
     fetchTrace c net traceId options
     = ([Fetch (GetRun traceId); Fetch (GetFeedback traceId)], Throw SyntaxError)).
Proof.
  intros Hw Hk Hrun Hhas. unfold wantsFeedback in Hw.
  split; intros Hfb; unfold fetchTrace, apiRequest, fetchFeedback;
    rewrite Hw, Hk, Hrun, Hfb; cbn; rewrite orb_true_r; cbn; by rewrite Hhas.
Qed.

End FeedbackProps.

Lemma fetchTrace_feedback_failure_propagates_witness :
  fetchTrace (H := sampleRuntime) (cfg sampleWorld) sampleRemote "C" feedbackOnly
  = ([Fetch (GetRun "C"); Fetch (GetFeedback "C")], Throw NetworkError).
Proof.
  eapply (fetchTrace_feedback_failure_propagates (H := sampleRuntime));
    reflexivity.
Defined.

(** ** Time filters *)

Section TimeFilterProps.
Context `{JsRuntime}.

Lemma timeFilterGuard_both {A} (opts : CliTimeOptions)
    (rest : option jsnum → option string → io A) :
  truthy_ostr (cli_lastNMinutes opts) = true → truthy_ostr (cli_since opts) = true →
  timeFilterGuard opts rest = ([ConsoleError MutuallyExclusive], Return (Exit A 1)).
Proof.
  intros Hl Hs. unfold timeFilterGuard, cliLastNMinutes. rewrite Hs.
  destruct (cli_lastNMinutes opts) as [s|]; [|done]. cbn in Hl. by rewrite Hl.
Qed.

(** C4 as amended. The guard of the [traces] and [threads] commands ends
    a call that gives both [--last-n-minutes] and [--since] with a usage
    error and exit code 1, before anything else is done, so before any
    request. fetchTraces and fetchThreads themselves do not refuse such a
    call: the relative window is used and [since] is ignored. With the
    relative window alone, or with [since] alone, the [start_time] of the
    query is the timestamp made from it (a time value that cannot be
    printed throws a RangeError, before any request); with neither, the
    query has no [start_time]. *)
Theorem time_filter_precedence :
  (∀ (A : Type) (opts : CliTimeOptions) (rest : option jsnum → option string → io A),
     truthy_ostr (cli_lastNMinutes opts) = true →
     truthy_ostr (cli_since opts) = true →
     timeFilterGuard opts rest = ([ConsoleError MutuallyExclusive], Return (Exit A 1)))
  ∧ (∀ (now : Z) (n : jsnum) (since : option string),
       startTimeFilter now (Some n) since = isoOrThrow (windowStart now n))
  ∧ (∀ (now : Z) (c : ascii) (s : string),
       startTimeFilter now None (Some (String c s))
       = isoOrThrow (Date_parse (replace_Z (String c s))))
  ∧ (∀ now : Z, startTimeFilter now None None = Return None)
  ∧ (∀ (w : World) (opts : FetchTracesOptions) (body : QueryBody),
       tracesBody w opts = Return body →
       Return (body_start_time body)
       = startTimeFilter (now w) (ft_lastNMinutes opts) (ft_since opts))
  ∧ (∀ (w : World) (opts : FetchThreadsOptions) (body : QueryBody),
       threadsBody w opts = Return body →
       Return (body_start_time body)
       = startTimeFilter (now w) (fth_lastNMinutes opts) (fth_since opts))
  ∧ (∀ (w : World) (opts : FetchTracesOptions) (sched : list action) (e : exn),
       tracesBody w opts = Throw e →
       fetchTraces w opts sched = ([], Throw e))
  ∧ (∀ (w : World) (opts : FetchThreadsOptions) (sched : list action) (e : exn),
       threadsBody w opts = Throw e →
       fetchThreads w opts sched = ([], Throw e)).
Proof.
  repeat split.
  - intros A opts rest. apply timeFilterGuard_both.
  - intros w opts body. unfold tracesBody.
    destruct (startTimeFilter _ _ _); [|done]. by intros [= <-].
  - intros w opts body. unfold threadsBody.
    destruct (startTimeFilter _ _ _); [|done]. by intros [= <-].
  - intros w opts sched e Hb. unfold fetchTraces. by rewrite Hb.
  - intros w opts sched e Hb. unfold fetchThreads. by rewrite Hb.
Qed.

End TimeFilterProps.

Lemma time_filter_precedence_witness :
  timeFilterGuard (H := sampleRuntime)
    {| cli_lastNMinutes := Some "30"; cli_since := Some "2025-01-01T00:00:00Z" |}
    (λ n since, fetchTraces sampleWorld bothFilters [])
  = ([ConsoleError MutuallyExclusive], Return (Exit _ 1))
  ∧ Return (Some "1735687800000")
    = startTimeFilter (H := sampleRuntime) (now sampleWorld)
        (ft_lastNMinutes bothFilters) (ft_since bothFilters).
Proof.
  destruct (time_filter_precedence (H := sampleRuntime))
    as (Hguard & _ & _ & _ & Hbody & _).
  split.
  - apply Hguard; reflexivity.
  - rewrite <- (Hbody sampleWorld bothFilters
                  {| body_is_root := true;
                     body_filter := Some tracesFilter;
                     body_limit := Some (Num 1);
                     body_session := None;
                     body_start_time := Some "1735687800000" |});
      [reflexivity|].
    reflexivity.
Defined.

(** C4 as stated fails for fetchTraces: called with both filters it
    does not fail, and it sends the query. *)
Lemma fetchTraces_accepts_both_filters :
  ¬ rejects_both_filters (H := sampleRuntime) sampleWorld bothFilters [].
Proof.
  intros Hclaim.
  destruct Hclaim as [_ Hnone]; [by eexists | by eexists |].
  vm_compute in Hnone. discriminate Hnone.
Qed.

(** * Further properties *)

(** ** Metadata *)

Section MetadataMore.
Context `{JsRuntime}.

Lemma existsb_elem_of {A} (p : A → bool) (l : list A) :
  existsb p l = true ↔ ∃ x, x ∈ l ∧ p x = true.
Proof.
  rewrite existsb_exists. split; intros (x & Hx & Hp); exists x;
    (split; [by apply list_elem_of_In|done]).
Qed.

(** X1. Feedback counts as present exactly when some feedback statistic
    is a number greater than zero. *)
Theorem hasFeedback_iff (metadata : RunMetadata) :
  hasFeedback metadata = true
  ↔ ∃ (key : string) (n : Z),
      feedback_stats metadata !! key = Some (JNumber (Num n)) ∧ 0 < n.
Proof.
  unfold hasFeedback. rewrite existsb_elem_of. split.
  - intros (v & Hin & Hpos).
    apply list_elem_of_fmap in Hin as ([k v'] & -> & Hin).
    apply elem_of_map_to_list in Hin. cbn in *.
    destruct v' as [| |[n|]|]; try done. cbn in Hpos.
    apply bool_decide_eq_true in Hpos. by exists k, n.
  - intros (k & n & Hk & Hn). exists (JNumber (Num n)). split.
    + apply list_elem_of_fmap. exists (k, JNumber (Num n)). split; [done|].
      by apply elem_of_map_to_list.
    + cbn. by apply bool_decide_eq_true.
Qed.

(** X2. The duration is null exactly when the start or the end timestamp
    is missing or empty; it is never null for another reason. *)
Theorem duration_null_iff (run : RawRun) :
  duration_ms (extractRunMetadata run) = None
  ↔ truthy_ostr (run_start_time run) = false
    ∨ truthy_ostr (run_end_time run) = false.
Proof.
  cbn. unfold durationOf.
  destruct (run_start_time run) as [[|c s]|], (run_end_time run) as [[|c' e]|];
    cbn; split; intros Hx; try done; try (by left); try (by right).
  by destruct Hx.
Qed.

End MetadataMore.

(** ** Single-item fetchers *)

Lemma requests_app (a b : list event) : requests (a ++ b) = requests a ++ requests b.
Proof. apply omap_app. Qed.

Lemma warnings_app (a b : list event) : warnings (a ++ b) = warnings a ++ warnings b.
Proof. apply omap_app. Qed.

Section SingleItemMore.
Context `{JsRuntime}.

Lemma apiRequest_cases {T} (c : Config) (req : request) (answer : http T) :
  (∃ e, getApiKey c = Throw e ∧ apiRequest c req answer = ([], Throw e))
  ∨ (∃ key r, getApiKey c = Return key ∧ apiRequest c req answer = ([Fetch req], r)
       ∧ r = match answer with
             | FetchRejected => Throw NetworkError
             | NotOk st text => Throw (ApiError st text)
             | JsonRejected => Throw SyntaxError
             | Ok200 payload => Return payload
             end).
Proof.
  unfold apiRequest. destruct (getApiKey c) as [key|e].
  - right. exists key. destruct answer; by eexists.
  - left. by exists e.
Qed.

Lemma fetchFeedback_cases (c : Config) (net : Remote) (runId : string) :
  (∃ e, getApiKey c = Throw e ∧ fetchFeedback c net runId = ([], Throw e))
  ∨ (∃ key w r, getApiKey c = Return key
       ∧ fetchFeedback c net runId = (Fetch (GetFeedback runId) :: w, r)
       ∧ requests w = []).
Proof.
  unfold fetchFeedback. destruct (getApiKey c) as [key|e].
  - right. exists key. destruct (remote_feedback net runId) as [| | |[]]; by eexists _, _.
  - left. by exists e.
Qed.

(** X3. fetchTrace sends at most two requests: first the run, then, if at
    all, the feedback of the same run. *)
Theorem fetchTrace_requests (c : Config) (net : Remote) (traceId : string)
    (options : option TraceOptions) :
  requests (events (fetchTrace c net traceId options))
    `prefix_of` [GetRun traceId; GetFeedback traceId].
Proof.
  unfold fetchTrace, apiRequest, fetchFeedback.
  destruct (getApiKey c) as [key|e]; [|apply prefix_nil].
  destruct (remote_run net traceId) as [| | |run];
    try (by exists [GetFeedback traceId]).
  cbn. destruct (_ || _); [|by exists [GetFeedback traceId]].
  destruct (_ && _); [|by exists [GetFeedback traceId]].
  destruct (remote_feedback net traceId) as [| | |[]]; by exists [].
Qed.

(** X6. A feedback request answered with an error status is not fatal:
    the trace is returned with an empty feedback list, after one warning. *)
Theorem fetchTrace_feedback_status_not_fatal (c : Config) (net : Remote)
    (traceId key text : string) (options : option TraceOptions) (run : RawRun)
    (st : Z) :
  wantsFeedback options = true →
  getApiKey c = Return key →
  remote_run net traceId = Ok200 run →
  hasFeedback (extractRunMetadata run) = true →
  remote_feedback net traceId = NotOk st text →
  fetchTrace c net traceId options
  = ([Fetch (GetRun traceId); Fetch (GetFeedback traceId);
      ConsoleError (FeedbackFailed traceId st)],
     Return {| trace_id := traceId; trace_messages := messagesOf run;
               trace_metadata := Some (extractRunMetadata run);
               trace_feedback := Some [] |}).
Proof.
  intros Hw Hk Hrun Hhas Hfb. unfold wantsFeedback in Hw.
  unfold fetchTrace, apiRequest, fetchFeedback.
  rewrite Hw, Hk, Hrun, Hfb. cbn. rewrite orb_true_r. cbn. by rewrite Hhas.
Qed.

(** The trace that fetchTrace returns, in terms of the fetched run. *)
Lemma fetchTrace_built_from_run (c : Config) (net : Remote) (traceId : string)
    (options : option TraceOptions) (trace : TraceData) :
  outcome (fetchTrace c net traceId options) = Return trace →
  ∃ run, remote_run net traceId = Ok200 run
    ∧ trace_id trace = traceId
    ∧ trace_messages trace = messagesOf run
    ∧ (∀ m, trace_metadata trace = Some m → m = extractRunMetadata run)
    ∧ (hasFeedback (extractRunMetadata run) = false →
       ∀ fb, trace_feedback trace = Some fb → fb = []).
Proof.
  unfold fetchTrace. rewrite outcome_bind.
  destruct (apiRequest_cases c (GetRun traceId) (remote_run net traceId))
    as [(e & Hk & ->)|(key & r & Hk & -> & Hr)]; [done|].
  cbn [outcome snd]. destruct r as [run|e]; [|done].
  destruct (remote_run net traceId) as [| | |run']; try done.
  injection Hr as ->. intros Hres. exists run'. split; [done|].
  destruct (_ || _).
  - destruct (hasFeedback (extractRunMetadata run')) eqn:Hhas.
    + destruct (default false _); cbn [andb] in Hres.
      * rewrite outcome_bind in Hres.
        destruct (outcome (fetchFeedback c net traceId)); [|done].
        cbn in Hres. injection Hres as <-. cbn. repeat split; try done.
        by intros m [= <-].
      * cbn in Hres. injection Hres as <-. cbn. repeat split; try done.
        by intros m [= <-].
    + rewrite andb_false_r in Hres. cbn in Hres. injection Hres as <-. cbn.
      repeat split; try done; [by intros m [= <-] | by intros _ fb [= <-]].
  - cbn in Hres. injection Hres as <-. cbn. repeat split; try done.
Qed.

(** X7. What fetchTrace returns is made from the run of the requested
    id: its id is the requested one; its messages are the run's own
    [messages] whenever the run has that field, even an empty one, and
    otherwise the messages of its outputs, or none when those are missing
    too; its metadata are extracted from that run; and its feedback is
    empty when the run shows no positive feedback count. *)
Theorem fetchTrace_result_shape (c : Config) (net : Remote) (traceId : string)
    (options : option TraceOptions) (trace : TraceData) :
  outcome (fetchTrace c net traceId options) = Return trace →
  ∃ run, remote_run net traceId = Ok200 run
    ∧ trace_id trace = traceId
    ∧ (∀ ms, run_messages run = Some ms → trace_messages trace = ms)
    ∧ (run_messages run = None →
       (∀ o ms, run_outputs run = Some o → outputs_messages o = Some ms →
          trace_messages trace = ms)
       ∧ (run_outputs run ≫= outputs_messages = None → trace_messages trace = []))
    ∧ (∀ m, trace_metadata trace = Some m → m = extractRunMetadata run)
    ∧ (hasFeedback (extractRunMetadata run) = false →
       ∀ fb, trace_feedback trace = Some fb → fb = []).
Proof.
  intros Hres.
  destruct (fetchTrace_built_from_run c net traceId options trace Hres)
    as (run & Hrun & Hid & Hms & Hmd & Hfb).
  exists run. split; [done|]. split; [done|].
  unfold messagesOf in Hms. split; [|split; [|done]].
  - intros ms Hsome. by rewrite Hsome in Hms.
  - intros Hnone. rewrite Hnone in Hms. split.
    + intros o ms Ho Hom. by rewrite Ho, Hom in Hms.
    + intros Hno. destruct (run_outputs run) as [o|]; [|done].
      cbn in Hno. by rewrite Hno in Hms.
Qed.

End SingleItemMore.

(** ** Thread-id deduplicator *)

Section DeduplicatorMore.
Context `{JsRuntime}.

Lemma scanThreadIds_NaN (runs : list RawRun) :
  ∀ acc : list (jsval * option string),
    (scanThreadIds NaN runs acc).*1
    = acc.*1 ++ dedupFirst (filter (λ y, y ∉ acc.*1) (candidateIds runs)).
Proof.
  induction runs as [|run rest IH]; intros acc.
  { cbn. by rewrite app_nil_r. }
  rewrite candidateIds_cons. cbn [scanThreadIds]. unfold candidateId.
  destruct (threadIdOf run) as [v|]; [|by apply IH].
  destruct (truthy v) eqn:Hv; [|by apply IH]. cbn [andb].
  destruct (map_has v acc) eqn:Hhas; cbn [negb].
  - apply map_has_spec in Hhas.
    rewrite filter_cons_False by (intros Hn; by apply Hn). by apply IH.
  - assert (Hnot : v ∉ acc.*1).
    { intros Hin. apply map_has_spec in Hin. congruence. }
    rewrite filter_cons_True by done. cbn [dedupFirst size_ge].
    rewrite IH, fmap_app, <- app_assoc. cbn [fmap list_fmap app fst]. do 2 f_equal.
    rewrite <- dedupFirst_filter, list_filter_filter. f_equal.
    apply list_filter_iff. intros y.
    rewrite not_elem_of_app, list_elem_of_singleton. tauto.
Qed.

Lemma selectThreadIds_NaN (runs : list RawRun) :
  selectThreadIds NaN runs = dedupFirst (candidateIds runs).
Proof.
  unfold selectThreadIds. change (map fst ?l) with (l.*1).
  rewrite scanThreadIds_NaN. cbn [fmap list_fmap app].
  by rewrite filter_not_in_nil.
Qed.

Lemma selectThreadIds_prefix_dedup (limit : jsnum) (runs : list RawRun) :
  selectThreadIds limit runs `prefix_of` dedupFirst (candidateIds runs).
Proof.
  destruct limit as [z|].
  - rewrite selectThreadIds_spec. apply prefix_take.
  - by rewrite selectThreadIds_NaN.
Qed.

Lemma selectThreadIds_NoDup (limit : jsnum) (runs : list RawRun) :
  NoDup (selectThreadIds limit runs).
Proof.
  destruct (selectThreadIds_prefix_dedup limit runs) as [k Hk].
  pose proof (dedupFirst_NoDup (candidateIds runs)) as Hnd.
  rewrite Hk in Hnd. by apply NoDup_app in Hnd as (? & _ & _).
Qed.

Lemma candidateIds_elem_of (runs : list RawRun) (id : jsval) :
  id ∈ candidateIds runs ↔ ∃ run, run ∈ runs ∧ threadIdOf run = Some id ∧ truthy id = true.
Proof.
  unfold candidateIds. rewrite list_elem_of_omap. split.
  - intros (run & Hin & Hc). exists run. split; [done|].
    unfold candidateId in Hc. destruct (threadIdOf run) as [v|]; [|done].
    destruct (truthy v) eqn:Hv; [|done]. by injection Hc as ->.
  - intros (run & Hin & Hid & Ht). exists run. split; [done|].
    unfold candidateId. by rewrite Hid, Ht.
Qed.

(** X8. A limit that is not a number (the [--limit] option when it does not
    parse) caps nothing: every distinct id is selected. *)
Theorem selectThreadIds_NaN_uncapped (runs : list RawRun) :
  selectThreadIds NaN runs = dedupFirst (candidateIds runs)
  ∧ ∀ run id, run ∈ runs → threadIdOf run = Some id → truthy id = true →
      id ∈ selectThreadIds NaN runs.
Proof.
  split; [apply selectThreadIds_NaN|].
  intros run id Hin Hid Ht. rewrite selectThreadIds_NaN, dedupFirst_elem_of.
  apply candidateIds_elem_of. by exists run.
Qed.

(** X9. Every selected id is the truthy id of some run, and raising the limit
    only adds ids after those already selected. *)
Theorem selectThreadIds_members_and_growth (runs : list RawRun) :
  (∀ (limit : jsnum) (id : jsval),
     id ∈ selectThreadIds limit runs →
     truthy id = true ∧ ∃ run, run ∈ runs ∧ threadIdOf run = Some id)
  ∧ (∀ l1 l2 : Z, l1 ≤ l2 →
       selectThreadIds (Num l1) runs `prefix_of` selectThreadIds (Num l2) runs)
  ∧ (∀ l : Z, selectThreadIds (Num l) runs `prefix_of` selectThreadIds NaN runs).
Proof.
  split; [|split].
  - intros limit id Hin.
    destruct (selectThreadIds_prefix_dedup limit runs) as [k Hk].
    assert (Hc : id ∈ candidateIds runs).
    { apply dedupFirst_elem_of. rewrite Hk. apply elem_of_app. by left. }
    apply candidateIds_elem_of in Hc as (run & Hr & Hid & Ht). eauto.
  - intros l1 l2 Hle. rewrite !selectThreadIds_spec.
    assert (Hc : (cap l1 ≤ cap l2)%nat) by (unfold cap; lia).
    exists (take (cap l2 - cap l1) (drop (cap l1) (dedupFirst (candidateIds runs)))).
    rewrite take_take_drop. f_equal. lia.
  - intros l. rewrite selectThreadIds_NaN. apply selectThreadIds_prefix_dedup.
Qed.

End DeduplicatorMore.

(** ** Bulk fetchers *)

Lemma pLimit_cases (m : jsnum) :
  (∃ z, m = Num z ∧ 1 ≤ z) ∨ pLimit m = Throw TypeError.
Proof.
  destruct m as [z|]; [|by right]. destruct (decide (1 ≤ z)) as [Hz|Hz].
  - left. by exists z.
  - right. unfold pLimit. by rewrite bool_decide_eq_false_2.
Qed.

Lemma bulk_fetch_invalid {Item Res} (task : nat → Item → io Res)
    (failed : Item → exn → warning) (onProgress : bool) (items : list Item)
    (m : jsnum) (sched : list action) :
  pLimit m = Throw TypeError →
  bulk_fetch task failed onProgress items m sched = ([], Throw TypeError).
Proof. intros Hm. unfold bulk_fetch. by rewrite Hm. Qed.

Section BulkMore.
Context `{JsRuntime}.

Lemma runsQuery_events (w : World) (body : QueryBody) (data : RunsQueryResponse) :
  outcome (runsQuery w body) = Return data →
  runsQuery w body = ([Fetch (PostRunsQuery body)], Return data).
Proof.
  unfold runsQuery, apiRequest. destruct (getApiKey (cfg w)); [|done].
  destruct (remote_query (index w) body); try done. by intros [= ->].
Qed.

Lemma bulk_or_empty_independent {Item Res} (task : nat → Item → io Res)
    (failed : Item → exn → warning) (p1 p2 : bool) (items : list Item)
    (m : jsnum) (s1 s2 : list action) :
  outcome (if bool_decide (length items = 0%nat) then mret []
           else bulk_fetch task failed p1 items m s1)
  = outcome (if bool_decide (length items = 0%nat) then mret []
             else bulk_fetch task failed p2 items m s2).
Proof.
  case_bool_decide; [done|].
  destruct (pLimit_cases m) as [(z & -> & Hz)|Hm].
  - destruct (bulk_fetch_spec task failed p1 items z s1 Hz) as [-> _].
    by destruct (bulk_fetch_spec task failed p2 items z s2 Hz) as [-> _].
  - by rewrite !bulk_fetch_invalid.
Qed.

(** X10. The result of a bulk fetch does not depend on the order in which
    the fetches start and settle. *)
Theorem bulk_result_schedule_independent :
  (∀ (w : World) (opts : FetchTracesOptions) (s1 s2 : list action),
     outcome (fetchTraces w opts s1) = outcome (fetchTraces w opts s2))
  ∧ (∀ (w : World) (opts : FetchThreadsOptions) (s1 s2 : list action),
       outcome (fetchThreads w opts s1) = outcome (fetchThreads w opts s2)).
Proof.
  split; intros w opts s1 s2.
  - unfold fetchTraces. destruct (tracesBody w opts) as [body|e]; [|done].
    rewrite !outcome_bind.
    destruct (outcome (apiRequest _ _ _)) as [data|e]; [|done].
    apply bulk_or_empty_independent.
  - unfold fetchThreads. destruct (threadsBody w opts) as [body|e]; [|done].
    rewrite !outcome_bind.
    destruct (outcome (apiRequest _ _ _)) as [data|e]; [|done].
    apply bulk_or_empty_independent.
Qed.

(** X11. A query that finds nothing gives an empty result and no error,
    whatever the concurrency bound. *)
Theorem empty_query_empty_result :
  (∀ (w : World) (opts : FetchTracesOptions) (sched : list action)
     (body : QueryBody) (data : RunsQueryResponse),
     tracesBody w opts = Return body →
     outcome (runsQuery w body) = Return data →
     default [] (runs data) = [] →
     fetchTraces w opts sched = ([Fetch (PostRunsQuery body)], Return []))
  ∧ (∀ (w : World) (opts : FetchThreadsOptions) (sched : list action)
       (body : QueryBody) (data : RunsQueryResponse),
       threadsBody w opts = Return body →
       outcome (runsQuery w body) = Return data →
       candidateIds (default [] (runs data)) = [] →
       fetchThreads w opts sched = ([Fetch (PostRunsQuery body)], Return [])).
Proof.
  split; intros w opts sched body data Hbody Hq Hnone.
  - rewrite (fetchTraces_after_query _ _ _ _ Hbody), (runsQuery_events _ _ _ Hq).
    cbn. by rewrite Hnone.
  - rewrite (fetchThreads_after_query _ _ _ _ Hbody), (runsQuery_events _ _ _ Hq).
    cbn.
    assert (Hsel : selectThreadIds (default (Num 10) (fth_limit opts))
                     (default [] (runs data)) = []).
    { unfold selectThreadIds.
      assert (Hscan : ∀ limit runs acc, candidateIds runs = [] →
                scanThreadIds limit runs acc = acc).
      { clear. intros limit runs. induction runs as [|run rest IH]; intros acc Hc; [done|].
        rewrite candidateIds_cons in Hc. cbn [scanThreadIds].
        unfold candidateId in Hc. destruct (threadIdOf run) as [v|]; [|by apply IH].
        destruct (truthy v); [done|]. by apply IH. }
      by rewrite Hscan. }
    by rewrite Hsel.
Qed.

(** X12. Without a progress callback nothing is reported. *)
Theorem no_callback_no_progress :
  (∀ (w : World) (opts : FetchTracesOptions) (sched : list action),
     ft_onProgress opts = false →
     progress_calls (events (fetchTraces w opts sched)) = [])
  ∧ (∀ (w : World) (opts : FetchThreadsOptions) (sched : list action),
       fth_onProgress opts = false →
       progress_calls (events (fetchThreads w opts sched)) = []).
Proof.
  assert (Hbulk : ∀ {Item Res} (task : nat → Item → io Res) failed items m sched,
            (∀ i item, quiet (task i item)) →
            progress_calls
              (events (if bool_decide (length items = 0%nat) then mret []
                       else bulk_fetch task failed false items m sched)) = []).
  { intros Item Res task failed items m sched Hq.
    destruct (pLimit_cases m) as [(z & -> & Hz)|Hm].
    - by rewrite bulk_or_empty_calls.
    - case_bool_decide; [done|]. by rewrite bulk_fetch_invalid. }
  split; intros w opts sched Hcb.
  - unfold fetchTraces. destruct (tracesBody w opts) as [body|e]; [|done].
    rewrite events_bind, progress_calls_app, apiRequest_quiet, Hcb.
    destruct (outcome _) as [data|e]; [|done]. cbn [app].
    apply Hbulk, traceTask_quiet.
  - unfold fetchThreads. destruct (threadsBody w opts) as [body|e]; [|done].
    rewrite events_bind, progress_calls_app, apiRequest_quiet, Hcb.
    destruct (outcome _) as [data|e]; [|done]. cbn [app].
    apply Hbulk, threadTask_quiet.
Qed.

(** X4. Without credentials nothing is requested: the single-item
    fetchers fail with the configuration error, and the bulk fetchers
    fail, with that error or with the RangeError of a time filter that
    cannot be printed, before any request and any console output. *)
Theorem no_credentials_no_request (w : World) (net : Remote) (e : exn) :
  getApiKey (cfg w) = Throw e →
  (∀ traceId options, fetchTrace (cfg w) net traceId options = ([], Throw e))
  ∧ (∀ threadId projectUuid,
       fetchThread (cfg w) net threadId projectUuid = ([], Throw e))
  ∧ (∀ runId, fetchFeedback (cfg w) net runId = ([], Throw e))
  ∧ (∀ opts sched, events (fetchTraces w opts sched) = []
       ∧ (outcome (fetchTraces w opts sched) = Throw e
          ∨ outcome (fetchTraces w opts sched) = Throw RangeError))
  ∧ (∀ opts sched, events (fetchThreads w opts sched) = []
       ∧ (outcome (fetchThreads w opts sched) = Throw e
          ∨ outcome (fetchThreads w opts sched) = Throw RangeError)).
Proof.
  intros Hk. split_and!.
  - intros. unfold fetchTrace, apiRequest. by rewrite Hk.
  - intros. unfold fetchThread, apiRequest. by rewrite Hk.
  - intros. unfold fetchFeedback. by rewrite Hk.
  - intros opts sched.
    unfold fetchTraces, tracesBody, startTimeFilter, apiRequest. rewrite Hk.
    repeat case_match; simplify_eq; cbn; auto.
  - intros opts sched.
    unfold fetchThreads, threadsBody, startTimeFilter, apiRequest. rewrite Hk.
    repeat case_match; simplify_eq; cbn; auto.
Qed.

End BulkMore.

Section BulkIds.
Context `{JsRuntime}.

Lemma fetchTrace_id (c : Config) (net : Remote) (traceId : string)
    (options : option TraceOptions) (trace : TraceData) :
  outcome (fetchTrace c net traceId options) = Return trace →
  trace_id trace = traceId.
Proof.
  unfold fetchTrace. rewrite outcome_bind.
  destruct (outcome (apiRequest _ _ _)) as [run|e]; [|done].
  destruct (_ || _); [|by intros [= <-]].
  destruct (_ && _); [|by intros [= <-]].
  rewrite outcome_bind. destruct (outcome (fetchFeedback _ _ _)); [|done].
  by intros [= <-].
Qed.

Lemma traceTask_id (w : World) (im ifb : bool) (i : nat) (run : RawRun)
    (trace : TraceData) :
  succeeded (traceTask w im ifb i run) = Some trace → trace_id trace = run_id run.
Proof.
  unfold succeeded, traceTask. rewrite outcome_bind.
  destruct (outcome (fetchTrace _ _ _ _)) as [t|e] eqn:Ht; [|done].
  apply fetchTrace_id in Ht. destruct (_ && _); cbn; by intros [= <-].
Qed.

Lemma threadTask_id (w : World) (p : string) (i : nat) (threadId : jsval)
    (thread : ThreadData) :
  succeeded (threadTask w p i threadId) = Some thread → thread_id thread = threadId.
Proof.
  unfold succeeded, threadTask, fetchThread. rewrite outcome_bind.
  destruct (outcome (apiRequest _ _ _)) as [data|e]; [|done].
  cbn. by intros [= <-].
Qed.

Lemma successes_sublist {Item Res Id} (task : nat → Item → io Res)
    (res_id : Res → Id) (item_id : Item → Id) (items : list Item) :
  (∀ i item r, succeeded (task i item) = Some r → res_id r = item_id item) →
  ∀ i, res_id <$> successes_from task i items `sublist_of` item_id <$> items.
Proof.
  intros Hid. induction items as [|item rest IH]; intros i; cbn; [constructor|].
  destruct (succeeded (task i item)) as [r|] eqn:Hr.
  - cbn. rewrite (Hid _ _ _ Hr). apply sublist_skip, IH.
  - apply sublist_cons, IH.
Qed.

Lemma bulk_or_empty_returns {Item Res} (task : nat → Item → io Res)
    (failed : Item → exn → warning) (p : bool) (items : list Item)
    (m : jsnum) (sched : list action) (res : list Res) :
  outcome (if bool_decide (length items = 0%nat) then mret []
           else bulk_fetch task failed p items m sched) = Return res →
  res = successes_from task 0 items.
Proof.
  case_bool_decide as Hlen.
  - destruct items; [|done]. by intros [= <-].
  - destruct (pLimit_cases m) as [(z & -> & Hz)|Hm].
    + destruct (bulk_fetch_spec task failed p items z sched Hz) as [-> _].
      by intros [= <-].
    + by rewrite bulk_fetch_invalid.
Qed.

(** X13. Every trace that fetchTraces returns is the trace of a run that the
    query found, and the traces come in the order of those runs. *)
Theorem fetchTraces_returns_queried_runs (w : World) (opts : FetchTracesOptions)
    (sched : list action) (traces : list TraceData) :
  outcome (fetchTraces w opts sched) = Return traces →
  ∃ body data,
    tracesBody w opts = Return body
    ∧ outcome (runsQuery w body) = Return data
    ∧ trace_id <$> traces `sublist_of` run_id <$> default [] (runs data)
    ∧ (length traces ≤ length (default [] (runs data)))%nat.
Proof.
  unfold fetchTraces. destruct (tracesBody w opts) as [body|e] eqn:Hbody; [|done].
  rewrite outcome_bind.
  destruct (outcome (apiRequest _ _ _)) as [data|e] eqn:Hq; [|done].
  cbv zeta. intros Hres%bulk_or_empty_returns. exists body, data.
  assert (Hsub : trace_id <$> traces `sublist_of` run_id <$> default [] (runs data)).
  { rewrite Hres. apply successes_sublist. intros i run t. apply traceTask_id. }
  repeat split; try done.
  apply sublist_length in Hsub. by rewrite !length_fmap in Hsub.
Qed.

(** X14. fetchThreads returns threads of the selected ids only, in their
    order: never the same thread twice, and never more than the cap. *)
Theorem fetchThreads_returns_selected (w : World) (opts : FetchThreadsOptions)
    (sched : list action) (threads : list ThreadData) :
  outcome (fetchThreads w opts sched) = Return threads →
  ∃ body data,
    threadsBody w opts = Return body
    ∧ outcome (runsQuery w body) = Return data
    ∧ thread_id <$> threads
        `sublist_of` selectThreadIds (default (Num 10) (fth_limit opts))
                       (default [] (runs data))
    ∧ NoDup (thread_id <$> threads)
    ∧ (∀ limit : Z, default (Num 10) (fth_limit opts) = Num limit →
       Z.of_nat (length threads) ≤ Z.max limit 1).
Proof.
  unfold fetchThreads. destruct (threadsBody w opts) as [body|e] eqn:Hbody; [|done].
  rewrite outcome_bind.
  destruct (outcome (apiRequest _ _ _)) as [data|e] eqn:Hq; [|done].
  cbv zeta. intros Hres%bulk_or_empty_returns. exists body, data.
  set (ids := selectThreadIds _ _) in *.
  assert (Hsub : thread_id <$> threads `sublist_of` ids).
  { rewrite Hres.
    pose proof (successes_sublist (threadTask w (fth_projectUuid opts))
                  thread_id id ids) as Hs.
    rewrite list_fmap_id in Hs. apply Hs. intros i t r. apply threadTask_id. }
  repeat split; try done.
  - eapply sublist_NoDup; [apply selectThreadIds_NoDup|exact Hsub].
  - intros limit Hl. apply sublist_length in Hsub. rewrite length_fmap in Hsub.
    unfold ids in Hsub. rewrite Hl in Hsub.
    pose proof (selectThreadIds_length limit (default [] (runs data))).
    unfold cap in *. lia.
Qed.

End BulkIds.

Section Blocks.
Context {Item Res X : Type}.
Variable task : nat -> Item -> io Res.
Variable failed : Item -> exn -> warning.
Variable onProgress : bool.
Variable items : list Item.
Variable f : event -> option X.
Hypothesis f_progress : ∀ c t, f (Progress c t) = None.

Local Abbreviation step := (bulk_step task failed onProgress items).
Local Abbreviation inv := (bulk_inv task onProgress items).
Local Abbreviation block_at := (block_at task failed items f).
Local Abbreviation settled_in := (settled_in task failed items f).

Lemma omap_progress (c : nat) : omap f (progress onProgress items c) = [].
Proof. unfold progress. destruct onProgress; [|done]. cbn. by rewrite f_progress. Qed.

Lemma settle_console (i : nat) (item : Item) (l' : limiter) (s : @bulk Res) :
  console (settle task failed onProgress items i item l' s)
  = console s ++ item_block task failed i item
      ++ progress onProgress items (S (completed s)).
Proof.
  unfold settle, item_block, events, outcome.
  destruct (task i item) as [evs [v|e]]; cbn [console fst snd].
  - by rewrite app_nil_r.
  - by rewrite <- app_assoc.
Qed.

Lemma step_settled (k : nat) (a : action) (s s' : @bulk Res) (order : list nat) :
  inv k s → step a s = Some s' → settled_in order s →
  ∃ order', settled_in order' s'.
Proof.
  intros Hinv Hstep (Hnd & Hmem & Hcons). destruct a as [|i]; cbn [bulk_step] in Hstep.
  - destruct (lim_start (lim s)) as [l'|] eqn:Hstart; [|done].
    cbn in Hstep. injection Hstep as <-.
    apply lim_start_inv in Hstart as (i & q & Hw & Hlt & ->).
    assert (Hpend : pending {| lim := {| concurrency := concurrency (lim s);
                                          waiting := q;
                                          active := active (lim s) ++ [i] |};
                               completed := completed s; console := console s;
                               promises := promises s |} = pending s).
    { unfold pending. cbn. by rewrite Hw, <- app_assoc. }
    exists order. split; [done|]. split; [|done].
    intros j. rewrite Hpend. apply Hmem.
  - destruct (lim_leave i (lim s)) as [l'|] eqn:Hleave; [|done].
    destruct (items !! i) as [item|] eqn:Hitem; [|done].
    cbn in Hstep. injection Hstep as <-.
    destruct (settle_inv task failed onProgress items k i item s l' Hinv Hleave Hitem)
      as (_ & Hpend & Hin).
    assert (Hip : i ∈ pending s) by (apply elem_of_app; by left).
    exists (order ++ [i]). split; [|split].
    + apply NoDup_app. split; [done|]. split; [|apply NoDup_singleton].
      intros j Hj ->%list_elem_of_singleton. apply Hmem in Hj as [_ Hj]. done.
    + intros j. rewrite elem_of_app, list_elem_of_singleton, Hmem, Hpend,
        list_elem_of_filter.
      pose proof (inv_range _ _ _ _ _ Hinv i Hip) as Hi.
      destruct (decide (j = i)) as [->|Hne]; [tauto|].
      split.
      * intros [[? Hn]|?]; [|done]. split; [done|]. intros [_ ?]. by apply Hn.
      * intros [? Hn]. left. split; [done|]. intros ?. apply Hn. done.
    + rewrite settle_console, !omap_app, omap_progress, app_nil_r, Hcons.
      rewrite bind_app. f_equal. cbn. unfold block_at. by rewrite Hitem, app_nil_r.
Qed.

Lemma reachable_settled (k : nat) (s : @bulk Res) :
  bulk_reachable task failed onProgress items
    {| concurrency := k; waiting := []; active := [] |} s →
  ∃ order, settled_in order s.
Proof.
  intros Hr. unfold bulk_reachable in Hr.
  assert (Hboth : inv k s ∧ ∃ order, settled_in order s); [|by destruct Hboth].
  eapply (rtc_ind_r (λ s, inv k s ∧ ∃ order, settled_in order s)); [| |exact Hr].
  - split; [apply bulk_init_inv|]. exists []. split; [constructor|]. split; [|done].
    intros i. split; [by intros ?%elem_of_nil|].
    intros [Hi Hn]. exfalso. apply Hn. unfold bulk_init, pending.
    rewrite foldl_lim_submit. cbn. apply elem_of_seq. lia.
  - intros s1 s2 _ [a Hstep] [Hinv [order Hs]]. split.
    + by apply (step_inv task failed onProgress items k a s1 s2).
    + by apply (step_settled k a s1 s2 order).
Qed.

Lemma bind_block_at (pre rest : list Item) :
  items = pre ++ rest →
  seq (length pre) (length rest) ≫= block_at
  = omap f (blocks_from task failed (length pre) rest).
Proof.
  revert pre. induction rest as [|x rest IH]; intros pre Hitems; [done|].
  cbn [length seq blocks_from]. rewrite omap_app. cbn [mbind list_bind].
  change (list_bind _ _ block_at ?l) with (l ≫= block_at).
  assert (Hx : block_at (length pre) = omap f (item_block task failed (length pre) x)).
  { unfold block_at. by rewrite Hitems, list_lookup_middle. }
  rewrite Hx. f_equal.
  specialize (IH (pre ++ [x])). rewrite length_app in IH. cbn in IH.
  rewrite Nat.add_1_r in IH. apply IH. by rewrite <- app_assoc.
Qed.

(** What a batch under a valid bound writes, progress reports apart: the
    events of every item's fetch and one warning for every item that
    failed, each item exactly once. *)
Lemma bulk_fetch_blocks (z : Z) (sched : list action) :
  1 ≤ z →
  omap f (events (bulk_fetch task failed onProgress items (Num z) sched))
  ≡ₚ omap f (blocks_from task failed 0 items).
Proof.
  intros Hz. unfold bulk_fetch, pLimit. rewrite bool_decide_eq_true_2 by done.
  cbn [events fst].
  set (l := {| concurrency := Z.to_nat z; waiting := []; active := [] |}).
  destruct (bulk_run_inv task failed onProgress items (Z.to_nat z) sched) as [Hinv Hfin];
    [lia|]. fold l in Hinv, Hfin.
  destruct (reachable_settled _ _ (bulk_run_reachable task failed onProgress items l sched))
    as (order & Hnd & Hmem & Hcons).
  rewrite Hcons.
  assert (Hpend : pending (bulk_run task failed onProgress items sched l) = []).
  { unfold pending, bulk_final in *. destruct (waiting _); [|done]. by destruct (active _). }
  assert (Hperm : order ≡ₚ seq 0 (length items)).
  { apply NoDup_Permutation; [done|apply NoDup_seq|].
    intros i. rewrite Hmem, Hpend, elem_of_seq. split.
    - intros [? _]. lia.
    - intros ?. split; [lia|apply not_elem_of_nil]. }
  pose proof (bind_block_at [] items eq_refl) as Hb. cbn [length] in Hb.
  by rewrite Hperm, Hb.
Qed.

Lemma bulk_or_empty_blocks (m : jsnum) (z : Z) (sched : list action) :
  m = Num z → 1 ≤ z →
  omap f (events (if bool_decide (length items = 0%nat) then mret []
                  else bulk_fetch task failed onProgress items m sched))
  ≡ₚ omap f (blocks_from task failed 0 items).
Proof.
  intros -> Hz. case_bool_decide as Hlen.
  - by destruct items.
  - by apply bulk_fetch_blocks.
Qed.

End Blocks.

Section BulkExactlyOnce.
Context `{JsRuntime}.

(** X15. A bulk fetch sends the query first; the requests that follow
    are, in some order, the requests of every item's fetch, each item
    exactly once; and the warnings it writes are, in some order, those of
    the single-item fetches and one warning for every item that failed. *)
Theorem bulk_fetch_each_item_once :
  (∀ (w : World) (opts : FetchTracesOptions) (sched : list action)
     (body : QueryBody) (data : RunsQueryResponse) (k : Z),
     tracesBody w opts = Return body →
     outcome (runsQuery w body) = Return data →
     default (Num 5) (ft_maxConcurrent opts) = Num k → 1 ≤ k →
     let blocks :=
       blocks_from (traceTask w (default false (ft_includeMetadata opts))
                      (default false (ft_includeFeedback opts)))
         traceFailed 0 (default [] (runs data)) in
     (∃ rest, requests (events (fetchTraces w opts sched)) = PostRunsQuery body :: rest
              ∧ rest ≡ₚ requests blocks)
     ∧ warnings (events (fetchTraces w opts sched)) ≡ₚ warnings blocks)
  ∧ (∀ (w : World) (opts : FetchThreadsOptions) (sched : list action)
       (body : QueryBody) (data : RunsQueryResponse) (k : Z),
       threadsBody w opts = Return body →
       outcome (runsQuery w body) = Return data →
       default (Num 5) (fth_maxConcurrent opts) = Num k → 1 ≤ k →
       let blocks :=
         blocks_from (threadTask w (fth_projectUuid opts)) ThreadFailed 0
           (selectThreadIds (default (Num 10) (fth_limit opts))
              (default [] (runs data))) in
       (∃ rest, requests (events (fetchThreads w opts sched)) = PostRunsQuery body :: rest
                ∧ rest ≡ₚ requests blocks)
       ∧ warnings (events (fetchThreads w opts sched)) ≡ₚ warnings blocks).
Proof.
  split; intros w opts sched body data k Hbody Hq Hk Hk1 blocks.
  - rewrite (fetchTraces_after_query _ _ _ _ Hbody), events_bind.
    rewrite (runsQuery_events _ _ _ Hq). cbn [events outcome fst snd].
    unfold requests, warnings. rewrite !omap_app. cbn [omap list_omap app].
    split.
    + eexists. split; [reflexivity|].
      by apply (bulk_or_empty_blocks _ _ _ _ _ (λ _ _, eq_refl) _ k).
    + by apply (bulk_or_empty_blocks _ _ _ _ _ (λ _ _, eq_refl) _ k).
  - rewrite (fetchThreads_after_query _ _ _ _ Hbody), events_bind.
    rewrite (runsQuery_events _ _ _ Hq). cbn [events outcome fst snd].
    unfold requests, warnings. rewrite !omap_app. cbn [omap list_omap app].
    split.
    + eexists. split; [reflexivity|].
      by apply (bulk_or_empty_blocks _ _ _ _ _ (λ _ _, eq_refl) _ k).
    + by apply (bulk_or_empty_blocks _ _ _ _ _ (λ _ _, eq_refl) _ k).
Qed.


Lemma threadTask_block (w : World) (p key : string) (i : nat) (threadId : jsval) :
  getApiKey (cfg w) = Return key →
  requests (item_block (threadTask w p) ThreadFailed i threadId) = [GetThread threadId p]
  ∧ (length (warnings (item_block (threadTask w p) ThreadFailed i threadId))
     + length (from_option (λ r, [r]) [] (succeeded (threadTask w p i threadId))))%nat
    = 1%nat.
Proof.
  intros Hk. unfold item_block, succeeded, threadTask, fetchThread, apiRequest.
  rewrite Hk. by destruct (remote_thread (item_net w i) threadId p).
Qed.

Lemma thread_blocks (w : World) (p key : string) (ids : list jsval) :
  getApiKey (cfg w) = Return key →
  ∀ i,
    requests (blocks_from (threadTask w p) ThreadFailed i ids)
    = (λ id, GetThread id p) <$> ids
    ∧ (length (warnings (blocks_from (threadTask w p) ThreadFailed i ids))
       + length (successes_from (threadTask w p) i ids))%nat
      = length ids.
Proof.
  intros Hk. induction ids as [|id rest IH]; intros i; [done|].
  destruct (IH (S i)) as [IHr IHw].
  destruct (threadTask_block w p key i id Hk) as [Hr Hw].
  cbn [blocks_from successes_from]. unfold requests, warnings in *.
  rewrite !omap_app, Hr, IHr, length_app. split; [done|].
  destruct (succeeded (threadTask w p i id)); cbn in *; lia.
Qed.

(** X16. fetchThreads requests every selected thread exactly once, and every
    selected thread gives either a result or a warning. *)
Theorem fetchThreads_one_request_per_thread (w : World) (opts : FetchThreadsOptions)
    (sched : list action) (body : QueryBody) (data : RunsQueryResponse) (k : Z)
    (threads : list ThreadData) :
  threadsBody w opts = Return body →
  outcome (runsQuery w body) = Return data →
  default (Num 5) (fth_maxConcurrent opts) = Num k → 1 ≤ k →
  outcome (fetchThreads w opts sched) = Return threads →
  let ids := selectThreadIds (default (Num 10) (fth_limit opts))
               (default [] (runs data)) in
  requests (events (fetchThreads w opts sched))
    ≡ₚ PostRunsQuery body :: ((λ id, GetThread id (fth_projectUuid opts)) <$> ids)
  ∧ (length (warnings (events (fetchThreads w opts sched))) + length threads)%nat
    = length ids.
Proof.
  intros Hbody Hq Hk Hk1 Hres ids. subst ids.
  set (ids := selectThreadIds _ _).
  assert (Hkey : ∃ key, getApiKey (cfg w) = Return key).
  { unfold runsQuery, apiRequest in Hq. destruct (getApiKey (cfg w)); [by eexists|done]. }
  destruct Hkey as [key Hkey].
  destruct (thread_blocks w (fth_projectUuid opts) key ids Hkey 0) as [Hreq Hcount].
  assert (Hthreads : threads = successes_from (threadTask w (fth_projectUuid opts)) 0 ids).
  { rewrite (fetchThreads_after_query _ _ _ _ Hbody), outcome_bind, Hq, Hk in Hres.
    cbv zeta in Hres. fold ids in Hres.
    rewrite bulk_or_empty_outcome in Hres by done. by injection Hres as <-. }
  rewrite (fetchThreads_after_query _ _ _ _ Hbody), events_bind.
  rewrite (runsQuery_events _ _ _ Hq), Hk. cbn [events outcome fst snd].
  cbv zeta. fold ids. unfold requests, warnings in *. rewrite !omap_app.
  cbn [omap list_omap app].
  pose proof (bulk_or_empty_blocks (threadTask w (fth_projectUuid opts)) ThreadFailed
                (fth_onProgress opts) ids
                (λ ev, match ev with Fetch r => Some r | _ => None end)
                (λ _ _, eq_refl) (Num k) k sched eq_refl Hk1) as Hpr.
  pose proof (bulk_or_empty_blocks (threadTask w (fth_projectUuid opts)) ThreadFailed
                (fth_onProgress opts) ids
                (λ ev, match ev with ConsoleError x => Some x | _ => None end)
                (λ _ _, eq_refl) (Num k) k sched eq_refl Hk1) as Hpw.
  split.
  - constructor. by rewrite Hpr, Hreq.
  - apply Permutation_length in Hpw. rewrite Hpw, Hthreads. exact Hcount.
Qed.

End BulkExactlyOnce.

(** ** Message stream *)

Lemma is_LF_true (c : ascii) : is_LF c = true → c = LF.
Proof. unfold is_LF. apply bool_decide_eq_true. Qed.

Lemma joinWith_cons_char (c : ascii) (h : string) (t : list string) :
  joinWith SEP (String c h :: t) = String c (joinWith SEP (h :: t)).
Proof. by destruct t. Qed.

Lemma split_nn_join_aux (n : nat) :
  ∀ s : string, (String.length s ≤ n)%nat → joinWith SEP (split_nn s) = s.
Proof.
  induction n as [n IH] using lt_wf_ind. intros s Hlen.
  destruct s as [|c s']; [done|]. cbn in Hlen.
  assert (Hplain :
    joinWith SEP (match split_nn s' with
                  | h :: t => String c h :: t
                  | [] => [String c EmptyString]
                  end) = String c s').
  { pose proof (split_nn_nonempty s') as Hne.
    destruct (split_nn s') as [|h t] eqn:Hs; [done|].
    rewrite joinWith_cons_char, <- Hs. f_equal. apply (IH (String.length s')); lia. }
  cbn [split_nn]. destruct (is_LF c) eqn:Hc; [|exact Hplain].
  destruct s' as [|c' s'']; [exact Hplain|].
  destruct (is_LF c') eqn:Hc'; [|exact Hplain].
  apply is_LF_true in Hc as ->. apply is_LF_true in Hc' as ->.
  pose proof (split_nn_nonempty s'') as Hne.
  destruct (split_nn s'') as [|h t] eqn:Hs; [done|].
  cbn in Hlen.
  change (joinWith SEP (EmptyString :: h :: t)) with (SEP +:+ joinWith SEP (h :: t)).
  rewrite <- Hs, (IH (String.length s'')) by lia. done.
Qed.

(** X17. Splitting a text on the blank-line separator loses nothing: the
    segments joined by the separator are the text. *)
Theorem split_nn_join (s : string) : joinWith SEP (split_nn s) = s.
Proof. by apply (split_nn_join_aux (String.length s)). Qed.

Lemma split_nn_all_chars (p : ascii → bool) (n : nat) :
  ∀ s : string, (String.length s ≤ n)%nat → all_chars p s = true →
    Forall (λ seg, all_chars p seg = true) (split_nn s).
Proof.
  induction n as [n IH] using lt_wf_ind. intros s Hlen Hs.
  destruct s as [|c s']; [by repeat constructor|]. cbn in Hlen, Hs.
  apply andb_prop in Hs as [Hc Hs'].
  assert (Hplain :
    Forall (λ seg, all_chars p seg = true)
      (match split_nn s' with
       | h :: t => String c h :: t
       | [] => [String c EmptyString]
       end)).
  { pose proof (IH (String.length s') ltac:(lia) s' ltac:(lia) Hs') as Hall.
    destruct (split_nn s') as [|h t]; [repeat constructor; cbn; by rewrite Hc|].
    inversion Hall as [|? ? Hh Ht]; subst. constructor; [|done].
    cbn. by rewrite Hc, Hh. }
  cbn [split_nn]. destruct (is_LF c); [|exact Hplain].
  destruct s' as [|c' s'']; [exact Hplain|].
  destruct (is_LF c'); [|exact Hplain].
  cbn in Hs', Hlen. apply andb_prop in Hs' as [_ Hs''].
  constructor; [done|]. apply (IH (String.length s'')); [lia|lia|done].
Qed.

Lemma trimStart_spaces (s : string) :
  all_chars is_js_space s = true → trimStart s = EmptyString.
Proof.
  induction s as [|c s IH]; [done|]. cbn [all_chars trimStart].
  intros [Hc Hs]%andb_prop. rewrite Hc. by apply IH.
Qed.

Lemma trimEnd_spaces (s : string) :
  all_chars is_js_space s = true → trimEnd s = EmptyString.
Proof.
  induction s as [|c s IH]; [done|]. cbn [all_chars trimEnd].
  intros [Hc Hs]%andb_prop. by rewrite (IH Hs), Hc.
Qed.

Lemma trimStart_app_spaces (a s : string) :
  all_chars is_js_space a = true → trimStart (a +:+ s) = trimStart s.
Proof.
  induction a as [|c a IH]; [done|]. cbn [all_chars].
  intros [Hc Ha]%andb_prop.
  change (trimStart (String c a +:+ s))
    with (if is_js_space c then trimStart (a +:+ s) else String c (a +:+ s)).
  rewrite Hc. by apply IH.
Qed.

Lemma trimEnd_app_spaces (s b : string) :
  all_chars is_js_space b = true → trimEnd (s +:+ b) = trimEnd s.
Proof.
  intros Hb. induction s as [|c s IH].
  - by apply trimEnd_spaces.
  - change (String c s +:+ b) with (String c (s +:+ b)). cbn [trimEnd].
    by rewrite IH.
Qed.

Lemma trimStart_app_r (s b : string) :
  all_chars is_js_space b = true →
  trimEnd (trimStart (s +:+ b)) = trimEnd (trimStart s).
Proof.
  intros Hb. induction s as [|c s IH].
  - change (EmptyString +:+ b) with b. by rewrite trimStart_spaces.
  - change (String c s +:+ b) with (String c (s +:+ b)). cbn [trimStart].
    destruct (is_js_space c); [done|].
    change (String c (s +:+ b)) with (String c s +:+ b).
    by apply trimEnd_app_spaces.
Qed.

Lemma trim_padding (a s b : string) :
  all_chars is_js_space a = true → all_chars is_js_space b = true →
  trim (a +:+ s +:+ b) = trim s.
Proof.
  intros Ha Hb. unfold trim. rewrite trimStart_app_spaces by done.
  by apply trimStart_app_r.
Qed.

Section MessageStreamMore.
Context `{JsRuntime}.

(** X18. A thread history that is empty or blank has no messages. *)
Theorem parseMessages_blank (blob : string) :
  all_chars is_js_space blob = true → parseMessages blob = [].
Proof.
  intros Hb. rewrite parseMessages_segments.
  pose proof (split_nn_all_chars is_js_space _ blob (le_n _) Hb) as Hall.
  induction Hall as [|seg segs Hseg _ IH]; [done|].
  change (omap decode_segment (seg :: segs))
    with (match decode_segment seg with
          | Some m => m :: omap decode_segment segs
          | None => omap decode_segment segs
          end).
  unfold decode_segment at 1. unfold trim.
  by rewrite (trimStart_spaces seg Hseg).
Qed.

(** X19. White space around the text of a message does not matter. *)
Theorem parse_segment_padding (messages : list Message) (a seg b : string) :
  all_chars is_js_space a = true → all_chars is_js_space b = true →
  parse_segment messages (a +:+ seg +:+ b) = parse_segment messages seg.
Proof.
  intros Ha Hb. unfold parse_segment. by rewrite trim_padding.
Qed.

End MessageStreamMore.

(** ** Configuration and file names *)

(** *** Configuration *)

Lemma replace_char_twice (c d : ascii) (s : string) :
  c ≠ d → replace_char c d (replace_char d c s) = replace_char c d s.
Proof.
  intros Hne. induction s as [|x s IH]; [done|]. cbn. rewrite IH. f_equal.
  repeat case_bool_decide; congruence.
Qed.

Lemma replace_char_idem (c d : ascii) (s : string) :
  c ≠ d → replace_char c d (replace_char c d s) = replace_char c d s.
Proof.
  intros Hne. induction s as [|x s IH]; [done|]. cbn. rewrite IH. f_equal.
  repeat case_bool_decide; congruence.
Qed.

(** X21. The configuration is read by a key's hyphen spelling first and its
    underscore spelling second, whichever spelling the caller uses: a
    value under the hyphen spelling that is not null is the result, and
    when the hyphen spelling is absent, or holds null, the result is what
    the underscore spelling holds. *)
Theorem getConfigValue_spelling (e : Environment) (key : string) :
  getConfigValue e (replace_char "_" "-" key) = getConfigValue e key
  ∧ getConfigValue e (replace_char "-" "_" key) = getConfigValue e key
  ∧ (∀ v, configFile e !! replace_char "_" "-" key = Some v → v ≠ JNull →
       getConfigValue e key = Some v)
  ∧ (configFile e !! replace_char "_" "-" key = None →
     getConfigValue e key = configFile e !! replace_char "-" "_" key)
  ∧ (configFile e !! replace_char "_" "-" key = Some JNull →
     getConfigValue e key = configFile e !! replace_char "-" "_" key).
Proof.
  unfold getConfigValue.
  rewrite replace_char_idem, !replace_char_twice, replace_char_idem by done.
  split; [done|]. split; [done|]. split; [|split].
  - intros v -> Hv. by destruct v.
  - by intros ->.
  - by intros ->.
Qed.

(** X22. The API key that is found is never empty, the one of the process
    environment is preferred, and the lookup fails exactly when neither
    place holds a truthy key. *)
Theorem getApiKeyOf_spec (e : Environment) :
  (∀ k, getApiKeyOf e = Return k → truthy k = true)
  ∧ (∀ k, processEnv e !! "LANGSMITH_API_KEY" = Some k → k ≠ EmptyString →
       getApiKeyOf e = Return (JString k))
  ∧ (getApiKeyOf e = Throw ConfigError
     ↔ truthy_ostr (processEnv e !! "LANGSMITH_API_KEY") = false
       ∧ truthy_opt (getConfigValue e "api-key") = false)
  ∧ (∀ err, getApiKeyOf e = Throw err → err = ConfigError).
Proof.
  unfold getApiKeyOf.
  destruct (processEnv e !! "LANGSMITH_API_KEY") as [[|c k]|] eqn:Henv; cbn;
    destruct (getConfigValue e "api-key") as [v|] eqn:Hcfg; cbn;
    try destruct (truthy v) eqn:Hv;
    repeat split; try done; try (by intros ? [= <-]); try (by intros ? [= <-] ?);
    try (by intros [? ?]); try (by intros ? [= ->]).
Qed.

(** X23. The base URL is never empty: the environment, then the file, then
    the public endpoint. *)
Theorem getBaseUrl_spec (e : Environment) :
  truthy (getBaseUrl e) = true
  ∧ (∀ u, processEnv e !! "LANGSMITH_ENDPOINT" = Some u → u ≠ EmptyString →
       getBaseUrl e = JString u)
  ∧ (truthy_ostr (processEnv e !! "LANGSMITH_ENDPOINT") = false →
     truthy_opt (getConfigValue e "base-url") = false →
     getBaseUrl e = JString defaultBaseUrl).
Proof.
  unfold getBaseUrl.
  destruct (processEnv e !! "LANGSMITH_ENDPOINT") as [[|c k]|] eqn:Henv; cbn;
    destruct (getConfigValue e "base-url") as [v|] eqn:Hcfg; cbn;
    try destruct (truthy v) eqn:Hv;
    repeat split; try done; by intros ? [= <-].
Qed.

(** *** Project id *)

(** X24. One call of getProjectUuid asks the service at most once, and
    not at all when [LANGSMITH_PROJECT_UUID] is set or the cache is
    filled; the cache changes only when a lookup succeeds, and then
    holds the id that is returned. *)
Theorem getProjectUuid_lookups (e : Environment)
    (sessions : string → http (option (list string))) (cache : option string) :
  let r := getProjectUuid e sessions cache in
  (length (lookups r) ≤ 1)%nat
  ∧ (truthy_ostr (processEnv e !! "LANGSMITH_PROJECT_UUID") = true →
     r = {| lookups := [];
            resolved := Return (JString <$> processEnv e !! "LANGSMITH_PROJECT_UUID");
            cacheAfter := cache |})
  ∧ (truthy_ostr cache = true → lookups r = [] ∧ cacheAfter r = cache)
  ∧ (cacheAfter r ≠ cache →
     ∃ uuid, lookups r = [default EmptyString (processEnv e !! "LANGSMITH_PROJECT")]
             ∧ resolved r = Return (Some (JString uuid))
             ∧ cacheAfter r = Some uuid)
  ∧ (∀ err, resolved r = Throw err → cacheAfter r = cache).
Proof.
  cbv zeta. unfold getProjectUuid.
  destruct (truthy_ostr (processEnv e !! "LANGSMITH_PROJECT_UUID")) eqn:Huuid.
  { cbn. repeat split; try done; lia. }
  destruct (truthy_ostr (processEnv e !! "LANGSMITH_PROJECT")) eqn:Hproj; last first.
  { cbn. repeat split; try done; lia. }
  destruct (truthy_ostr cache) eqn:Hcache.
  { cbn. repeat split; try done; lia. }
  destruct (getApiKeyOf e) as [k|err0].
  - destruct (lookupProjectUuidByName _) as [uuid|err1]; cbn;
      repeat split; try done; try lia.
    intros _. by exists uuid.
  - cbn. repeat split; try done; lia.
Qed.

(** X25. Once a project name has been resolved to a non-empty id, later calls
    return that id without asking the service again, whatever name
    [LANGSMITH_PROJECT] holds by then. *)
Theorem getProjectUuid_cached (e e' : Environment)
    (sessions sessions' : string → http (option (list string)))
    (cache : option string) (uuid : string) :
  lookups (getProjectUuid e sessions cache) ≠ [] →
  resolved (getProjectUuid e sessions cache) = Return (Some (JString uuid)) →
  uuid ≠ EmptyString →
  truthy_ostr (processEnv e' !! "LANGSMITH_PROJECT_UUID") = false →
  truthy_ostr (processEnv e' !! "LANGSMITH_PROJECT") = true →
  getProjectUuid e' sessions' (cacheAfter (getProjectUuid e sessions cache))
  = {| lookups := []; resolved := Return (Some (JString uuid));
       cacheAfter := Some uuid |}.
Proof.
  intros Hl Hr Hne Hu' Hp'.
  assert (Hc : cacheAfter (getProjectUuid e sessions cache) = Some uuid).
  { unfold getProjectUuid in *.
    destruct (truthy_ostr (processEnv e !! "LANGSMITH_PROJECT_UUID")); [done|].
    destruct (truthy_ostr (processEnv e !! "LANGSMITH_PROJECT")); [|done].
    destruct (truthy_ostr cache); [done|].
    destruct (getApiKeyOf e); [|done].
    destruct (lookupProjectUuidByName _); [|done].
    cbn in *. by injection Hr as ->. }
  rewrite Hc. unfold getProjectUuid. rewrite Hu', Hp'. cbn.
  by destruct uuid.
Qed.

(** *** File names *)

Lemma replace_unsafe_safe (s : string) : all_chars is_safe_char (replace_unsafe s) = true.
Proof.
  induction s as [|c s IH]; [done|]. cbn [replace_unsafe all_chars]. rewrite IH.
  by destruct (is_safe_char c) eqn:Hc; [rewrite Hc|].
Qed.

Lemma replace_unsafe_length (s : string) :
  String.length (replace_unsafe s) = String.length s.
Proof. induction s as [|c s IH]; [done|]. cbn. by rewrite IH. Qed.

Lemma replace_unsafe_id (s : string) :
  all_chars is_safe_char s = true → replace_unsafe s = s.
Proof.
  induction s as [|c s IH]; [done|]. cbn [replace_unsafe all_chars].
  intros [Hc Hs]%andb_prop. by rewrite Hc, IH.
Qed.

Lemma strip_leading_props (p : ascii → bool) (s : string) :
  (all_chars p s = true → all_chars p (strip_leading s) = true)
  ∧ (String.length (strip_leading s) ≤ String.length s)%nat
  ∧ clean_start (strip_leading s).
Proof.
  induction s as [|c s (IHp & IHl & IHc)]; [done|]. cbn [strip_leading].
  destruct (is_dot_or_space c) eqn:Hc.
  - split_and!; [|cbn; lia|done].
    cbn [all_chars]. intros [_ Hs]%andb_prop. by apply IHp.
  - split_and!; [done|done|]. exact Hc.
Qed.

Lemma strip_leading_id (s : string) : clean_start s → strip_leading s = s.
Proof. destruct s as [|c s]; [done|]. cbn. by intros ->. Qed.

Lemma strip_trailing_props (p : ascii → bool) (s : string) :
  (all_chars p s = true → all_chars p (strip_trailing s) = true)
  ∧ (String.length (strip_trailing s) ≤ String.length s)%nat
  ∧ (clean_start s → clean_start (strip_trailing s))
  ∧ strip_trailing (strip_trailing s) = strip_trailing s.
Proof.
  induction s as [|c s (IHp & IHl & IHc & IHi)]; [done|]. cbn [strip_trailing].
  destruct (strip_trailing s) as [|c' t] eqn:Ht.
  - destruct (is_dot_or_space c) eqn:Hc.
    + split_and!; [done|cbn; lia|done|done].
    + split_and!.
      * cbn [all_chars]. intros [-> _]%andb_prop. done.
      * cbn. lia.
      * done.
      * cbn. by rewrite Hc.
  - split_and!.
    + cbn [all_chars]. intros [-> Hs]%andb_prop. by apply IHp.
    + cbn in *. lia.
    + done.
    + cbn [strip_trailing]. cbn [strip_trailing] in IHi. by rewrite IHi.
Qed.

Lemma slice0_props (p : ascii → bool) (n : nat) (s : string) :
  (all_chars p s = true → all_chars p (slice0 n s) = true)
  ∧ (String.length (slice0 n s) ≤ n)%nat
  ∧ (String.length (slice0 n s) ≤ String.length s)%nat
  ∧ (clean_start s → clean_start (slice0 n s)).
Proof.
  revert s. induction n as [|n IH]; intros s; [by split_and!; cbn; try lia; destruct s|].
  destruct s as [|c s]; [split_and!; cbn; try done; lia|].
  destruct (IH s) as (IHp & IHl & IHl' & _). cbn [slice0]. split_and!.
  - cbn [all_chars]. intros [-> Hs]%andb_prop. by apply IHp.
  - cbn. lia.
  - cbn. lia.
  - done.
Qed.

Lemma sanitizeFilename_props (name : string) :
  all_chars is_safe_char (sanitizeFilename name) = true
  ∧ (String.length (sanitizeFilename name) ≤ 255)%nat
  ∧ (String.length (sanitizeFilename name) ≤ String.length name)%nat
  ∧ clean_start (sanitizeFilename name).
Proof.
  unfold sanitizeFilename.
  set (r := replace_unsafe name).
  destruct (strip_leading_props is_safe_char r) as (Hlp & Hll & Hlc).
  destruct (strip_trailing_props is_safe_char (strip_leading r)) as (Htp & Htl & Htc & _).
  pose proof (replace_unsafe_safe name) as Hsafe.
  pose proof (replace_unsafe_length name) as Hlen. fold r in Hsafe, Hlen.
  set (t := strip_trailing (strip_leading r)) in *.
  case_bool_decide as Hlong.
  - destruct (slice0_props is_safe_char 255 t) as (Hsp & Hsl & Hsl' & Hsc).
    split_and!; [auto|done|lia|auto].
  - split_and!; [auto|lia|lia|auto].
Qed.

(** X26. A sanitized file name has only letters, digits, underscores, hyphens
    and dots (so no path separator and no white space), does not begin
    with a dot, and is at most 255 characters and no longer than the
    name it was made from. *)
Theorem sanitizeFilename_safe (name : string) :
  all_chars is_safe_char (sanitizeFilename name) = true
  ∧ is_safe_char "/" = false ∧ is_safe_char "\" = false ∧ is_safe_char " " = false
  ∧ first_char (sanitizeFilename name) ≠ Some "."%char
  ∧ (String.length (sanitizeFilename name) ≤ 255)%nat
  ∧ (String.length (sanitizeFilename name) ≤ String.length name)%nat.
Proof.
  destruct (sanitizeFilename_props name) as (Hs & Hl & Hl' & Hc).
  split_and!; try done.
  destruct (sanitizeFilename name) as [|c s]; [done|]. cbn in *.
  intros [= ->]. done.
Qed.

(** X27. Sanitizing a name of at most 255 characters a second time changes
    nothing. *)
Theorem sanitizeFilename_idempotent (name : string) :
  (String.length name ≤ 255)%nat →
  sanitizeFilename (sanitizeFilename name) = sanitizeFilename name.
Proof.
  intros Hlen.
  destruct (sanitizeFilename_props name) as (Hs & Hl & Hl' & Hc).
  assert (Hshape : sanitizeFilename name
                   = strip_trailing (strip_leading (replace_unsafe name))).
  { unfold sanitizeFilename. rewrite bool_decide_eq_false_2; [done|].
    destruct (strip_leading_props is_safe_char (replace_unsafe name)) as (_ & Hll & _).
    destruct (strip_trailing_props is_safe_char (strip_leading (replace_unsafe name)))
      as (_ & Htl & _).
    rewrite replace_unsafe_length in Hll. lia. }
  set (r := sanitizeFilename name) in *.
  unfold sanitizeFilename at 1. rewrite (replace_unsafe_id r Hs).
  rewrite (strip_leading_id r Hc).
  assert (Hidem : strip_trailing r = r).
  { rewrite Hshape.
    by destruct (strip_trailing_props is_safe_char (strip_leading (replace_unsafe name)))
      as (_ & _ & _ & ->). }
  rewrite Hidem. rewrite bool_decide_eq_false_2; [done|lia].
Qed.

Lemma endsWith_self (s : string) : endsWith s s = true.
Proof. destruct s; cbn; by rewrite bool_decide_eq_true_2. Qed.

Lemma endsWith_app (suffix s : string) : endsWith suffix (s +:+ suffix) = true.
Proof.
  induction s as [|c s IH]; [apply endsWith_self|].
  change (String c s +:+ suffix) with (String c (s +:+ suffix)).
  cbn [endsWith]. rewrite IH. by case_bool_decide.
Qed.

Lemma all_chars_app (p : ascii → bool) (a b : string) :
  all_chars p (a +:+ b) = all_chars p a && all_chars p b.
Proof.
  induction a as [|c a IH]; [done|].
  change (String c a +:+ b) with (String c (a +:+ b)). cbn [all_chars].
  by rewrite IH, andb_assoc.
Qed.

Lemma length_append (a b : string) :
  String.length (a +:+ b) = (String.length a + String.length b)%nat.
Proof.
  induction a as [|c a IH]; [done|].
  change (String c a +:+ b) with (String c (a +:+ b)). cbn. by rewrite IH.
Qed.

(** X28. The file that a trace or thread is saved to always has the [.json]
    extension, a name of safe characters only, and at most 260
    characters. *)
Theorem jsonFilename_spec (filename : string) :
  endsWith ".json" (jsonFilename filename) = true
  ∧ all_chars is_safe_char (jsonFilename filename) = true
  ∧ (5 ≤ String.length (jsonFilename filename) ≤ 260)%nat.
Proof.
  destruct (sanitizeFilename_props filename) as (Hs & Hl & _ & _).
  unfold jsonFilename. destruct (endsWith ".json" (sanitizeFilename filename)) eqn:He.
  - split_and!; try done; [|lia].
    revert He. generalize (sanitizeFilename filename). clear.
    intros s. induction s as [|c s IH]; cbn [endsWith].
    + by rewrite bool_decide_eq_false_2.
    + case_bool_decide as Heq; [rewrite Heq; cbn; lia|].
      intros Hs. specialize (IH Hs). cbn. lia.
  - split_and!.
    + apply endsWith_app.
    + by rewrite all_chars_app, Hs.
    + rewrite length_append. cbn. lia.
    + rewrite length_append. cbn. lia.
Qed.

(** ** The time-filter guard *)

Section GuardMore.
Context `{JsRuntime}.

(** X20. The guard ends the command exactly when both options are given
    and non-empty (a relative window that is not a number still counts
    as given). Otherwise the rest of the action runs with the two
    filters, and then never with both a relative window and a non-empty
    [since]: through the command line no filter is silently ignored. *)
Theorem timeFilterGuard_exit_iff {A} (opts : CliTimeOptions)
    (rest : option jsnum → option string → io A) :
  (outcome (timeFilterGuard opts rest) = Return (Exit A 1)
   ↔ truthy_ostr (cli_lastNMinutes opts) = true
     ∧ truthy_ostr (cli_since opts) = true)
  ∧ (outcome (timeFilterGuard opts rest) ≠ Return (Exit A 1) →
     timeFilterGuard opts rest
     = (rest (cliLastNMinutes opts) (cli_since opts) ≫= λ a, mret (Finished A a))
     ∧ (is_Some (cliLastNMinutes opts) → truthy_ostr (cli_since opts) = false)).
Proof.
  assert (Hsome : is_Some (cliLastNMinutes opts)
                  ↔ truthy_ostr (cli_lastNMinutes opts) = true).
  { unfold cliLastNMinutes. destruct (cli_lastNMinutes opts) as [s|]; cbn.
    - destruct (truthy_str s).
      + split; [done|]. intros _. by exists (parseInt10 s).
      + split; [by intros [? ?]|done].
    - split; [by intros [? ?]|done]. }
  assert (Hrest : ∀ m : io A, outcome (m ≫= λ a, mret (Finished A a)) ≠ Return (Exit A 1)).
  { intros m. rewrite outcome_bind. by destruct (outcome m). }
  unfold timeFilterGuard.
  destruct (truthy_ostr (cli_since opts)) eqn:Hs;
    destruct (truthy_ostr (cli_lastNMinutes opts)) eqn:Hl.
  - rewrite bool_decide_eq_true_2 by (by apply Hsome). cbn. split; [done|].
    intros Hne. by destruct Hne.
  - rewrite bool_decide_eq_false_2 by (intros Hx; apply Hsome in Hx; done).
    cbn [andb]. split.
    + split; [intros Hx; by destruct (Hrest _ Hx) | by intros [? ?]].
    + intros _. split; [done|]. intros Hx. apply Hsome in Hx. done.
  - rewrite andb_false_r. split; [|done].
    split; [intros Hx; by destruct (Hrest _ Hx) | by intros [? ?]].
  - rewrite andb_false_r. split; [|done].
    split; [intros Hx; by destruct (Hrest _ Hx) | by intros [? ?]].
Qed.

End GuardMore.

(** ** The further properties on the sample data *)

Lemma no_credentials_no_request_witness :
  fetchTrace (H := sampleRuntime) (cfg noKeyWorld) sampleRemote "A" None
  = ([], Throw ConfigError)
  ∧ events (fetchTraces (H := sampleRuntime) noKeyWorld sampleTracesOptions []) = [].
Proof.
  destruct (no_credentials_no_request (H := sampleRuntime) noKeyWorld sampleRemote
              ConfigError eq_refl) as (Htrace & _ & _ & Htraces & _).
  split; [apply Htrace|apply Htraces].
Defined.

Lemma fetchTrace_feedback_gate_witness :
  wantsFeedback feedbackOnly = true
  ∧ ∃ run : @RawRun sampleRuntime,
      outcome (apiRequest (cfg sampleWorld) (GetRun "C") (remote_run sampleRemote "C"))
      = Return run
      ∧ hasFeedback (extractRunMetadata run) = true.
Proof.
  apply (fetchTrace_feedback_gate (H := sampleRuntime) (cfg sampleWorld) sampleRemote
           "C" feedbackOnly "C").
  change (Fetch (GetFeedback "C") ∈ [Fetch (GetRun "C"); Fetch (GetFeedback "C")]).
  apply elem_of_cons. right. apply elem_of_cons. by left.
Defined.

Lemma fetchTrace_feedback_status_not_fatal_witness :
  events (fetchTrace (H := sampleRuntime) (cfg sampleWorld) feedbackDownRemote "C"
            feedbackOnly)
  = [Fetch (GetRun "C"); Fetch (GetFeedback "C"); ConsoleError (FeedbackFailed "C" 503)].
Proof.
  erewrite (fetchTrace_feedback_status_not_fatal (H := sampleRuntime));
    reflexivity.
Defined.

Lemma fetchTrace_result_shape_witness :
  ∃ run : @RawRun sampleRuntime,
    remote_run messagesRemote "M" = Ok200 run
    ∧ trace_id bothMessagesTrace = "M"
    ∧ (∀ ms, run_messages run = Some ms → trace_messages bothMessagesTrace = ms)
    ∧ (run_messages run = None →
       (∀ o ms, run_outputs run = Some o → outputs_messages o = Some ms →
          trace_messages bothMessagesTrace = ms)
       ∧ (run_outputs run ≫= outputs_messages = None →
          trace_messages bothMessagesTrace = []))
    ∧ (∀ m, trace_metadata bothMessagesTrace = Some m → m = extractRunMetadata run)
    ∧ (hasFeedback (extractRunMetadata run) = false →
       ∀ fb, trace_feedback bothMessagesTrace = Some fb → fb = []).
Proof.
  apply (fetchTrace_result_shape (H := sampleRuntime) (cfg sampleWorld) messagesRemote
           "M" metadataOnly).
  reflexivity.
Defined.

Lemma empty_query_empty_result_witness :
  fetchTraces (H := sampleRuntime) emptyIndexWorld zeroConcurrency []
  = ([Fetch (PostRunsQuery
               {| body_is_root := true; body_filter := Some tracesFilter;
                  body_limit := Some (Num 1); body_session := None;
                  body_start_time := None |})], Return []).
Proof.
  destruct (empty_query_empty_result (H := sampleRuntime)) as [Htraces _].
  eapply Htraces; reflexivity.
Defined.

Lemma fetchTraces_returns_queried_runs_witness :
  ∃ body data,
    tracesBody (H := sampleRuntime) sampleWorld sampleTracesOptions = Return body
    ∧ outcome (runsQuery sampleWorld body) = Return data
    ∧ trace_id <$> [@Build_TraceData sampleRuntime "A" [] None None;
                    @Build_TraceData sampleRuntime "C" [] None None]
        `sublist_of` run_id <$> default [] (runs data)
    ∧ (length [@Build_TraceData sampleRuntime "A" [] None None;
               @Build_TraceData sampleRuntime "C" [] None None]
       ≤ length (default [] (runs data)))%nat.
Proof.
  apply (fetchTraces_returns_queried_runs (H := sampleRuntime) sampleWorld
           sampleTracesOptions [Settle 2; Start; Start; Start]).
  reflexivity.
Defined.

Lemma fetchThreads_returns_selected_witness :
  ∃ body data,
    threadsBody (H := sampleRuntime) sampleWorld (sampleThreadsOptions 2) = Return body
    ∧ outcome (runsQuery sampleWorld body) = Return data
    ∧ thread_id <$> [@Build_ThreadData sampleRuntime (JString "a") [msgHello; msgHi]]
        `sublist_of` selectThreadIds
                       (default (Num 10) (fth_limit (sampleThreadsOptions 2)))
                       (default [] (runs data))
    ∧ NoDup (thread_id <$> [@Build_ThreadData sampleRuntime (JString "a") [msgHello; msgHi]])
    ∧ (∀ limit : Z,
         default (Num 10) (fth_limit (sampleThreadsOptions 2)) = Num limit →
         Z.of_nat (length [@Build_ThreadData sampleRuntime (JString "a") [msgHello; msgHi]])
         ≤ Z.max limit 1).
Proof.
  apply (fetchThreads_returns_selected (H := sampleRuntime) sampleWorld
           (sampleThreadsOptions 2) [Start; Settle 0]).
  reflexivity.
Defined.

Lemma fetchThreads_one_request_per_thread_witness :
  requests (events (fetchThreads (H := sampleRuntime) sampleWorld
                      (sampleThreadsOptions 2) [Start; Settle 0]))
  ≡ₚ [PostRunsQuery sampleThreadsBody;
      GetThread (JString "a") "proj"; GetThread (JString "b") "proj"].
Proof.
  destruct (fetchThreads_one_request_per_thread (H := sampleRuntime) sampleWorld
              (sampleThreadsOptions 2) [Start; Settle 0] sampleThreadsBody
              sampleThreadsData 5
              [@Build_ThreadData sampleRuntime (JString "a") [msgHello; msgHi]])
    as [Hreq _]; [reflexivity | reflexivity | reflexivity | lia | reflexivity |].
  exact Hreq.
Defined.

Lemma parseMessages_blank_witness :
  parseMessages (H := sampleRuntime) (" " +:+ SEP +:+ String LF " ") = [].
Proof. apply (parseMessages_blank (H := sampleRuntime)). reflexivity. Defined.

Lemma parse_segment_padding_witness :
  parse_segment (H := sampleRuntime) [] ("  " +:+ msgHello +:+ String LF " ")
  = parse_segment (H := sampleRuntime) [] msgHello.
Proof. apply (parse_segment_padding (H := sampleRuntime)); reflexivity. Defined.

Lemma getProjectUuid_cached_witness :
  getProjectUuid otherEnvironment (λ _, FetchRejected)
    (cacheAfter (getProjectUuid sampleEnvironment sampleSessions None))
  = {| lookups := []; resolved := Return (Some (JString "uuid-1"));
       cacheAfter := Some "uuid-1" |}.
Proof.
  apply getProjectUuid_cached; [discriminate | reflexivity | discriminate
                               | reflexivity | reflexivity].
Defined.

Lemma sanitizeFilename_idempotent_witness :
  sanitizeFilename (sanitizeFilename "../my trace.json")
  = sanitizeFilename "../my trace.json".
Proof. apply sanitizeFilename_idempotent. cbn. lia. Defined.
